(** * csvtool: the row pipeline, the field-range language, numeric coercion
      and the table writer of [CSV/csvtool.py], embedded in Rocq.

    Python values are modelled as follows.
    - A [str] is a list of Unicode code points ([N]); [len] is [length].
    - An [int] is a [Z].
    - A [float] is a value of an abstract type with the operations the
      program uses ([float()], [str()], [is_integer], [int()], truth value,
      ["%f"]), collected in the class [PyFloat]; the facts about these
      built-ins that a proof relies on are the class [PyFloatLaws].
    - A raised exception is the [Raise] case of [result].
    - Only ASCII digits are treated as decimal digits: the other Unicode
      decimal digits, which [int()], [float()] and [\d] accept as well, are
      left out of the model. *)

From Stdlib Require Import ZArith NArith List Bool Lia.
From Stdlib Require Ascii String.
From Stdlib Require Import Decimal DecimalPos DecimalN DecimalZ.
Import ListNotations.
Import String.StringSyntax.
Delimit Scope string_scope with string.

Local Open Scope Z_scope.

(** ** Python strings *)

Definition pychar := N.
Definition pystr := list pychar.

(** An ASCII literal as a Python string. *)
Definition lit (s : String.string) : pystr :=
  map Ascii.N_of_ascii (String.list_ascii_of_string s).
Arguments lit s%_string.

Definition ch_nl : pychar := 10%N.
Definition ch_space : pychar := 32%N.
Definition ch_dollar : pychar := 36%N.
Definition ch_plus : pychar := 43%N.
Definition ch_comma : pychar := 44%N.
Definition ch_minus : pychar := 45%N.
Definition ch_dot : pychar := 46%N.
Definition ch_zero : pychar := 48%N.
Definition ch_underscore : pychar := 95%N.
Definition ch_pipe : pychar := 124%N.
Definition ch_box_h : pychar := 9472%N.      (* U+2500 *)
Definition ch_box_v : pychar := 9474%N.      (* U+2502 *)
Definition ch_box_cross : pychar := 9532%N.  (* U+253C *)

Definition pystr_eqb (a b : pystr) : bool :=
  if list_eq_dec N.eq_dec a b then true else false.

(** The C-locale [isspace] of the interpreter ([Py_ISSPACE]). *)
Definition is_ascii_space (c : pychar) : bool :=
  (((9 <=? c) && (c <=? 13)) || (c =? 32))%N.

(** [str.isspace] on one code point ([Py_UNICODE_ISSPACE]). *)
Definition is_unicode_space (c : pychar) : bool :=
  (is_ascii_space c || ((28 <=? c) && (c <=? 31)) || (c =? 133) || (c =? 160)
   || (c =? 5760) || ((8192 <=? c) && (c <=? 8202)) || (c =? 8232)
   || (c =? 8233) || (c =? 8239) || (c =? 8287) || (c =? 12288))%N.

(** White space that [int()] and [float()] skip at both ends of a [str]:
    non-ASCII spaces are first turned into [' '], ASCII is kept as it is
    and tested with [Py_ISSPACE]. *)
Definition is_number_space (c : pychar) : bool :=
  if (c <? 128)%N then is_ascii_space c else is_unicode_space c.

Fixpoint lstrip_by (sp : pychar -> bool) (s : pystr) : pystr :=
  match s with
  | [] => []
  | c :: s' => if sp c then lstrip_by sp s' else s
  end.

Definition strip_by (sp : pychar -> bool) (s : pystr) : pystr :=
  List.rev (lstrip_by sp (List.rev (lstrip_by sp s))).

(** [s.strip()] *)
Definition strip (s : pystr) : pystr := strip_by is_unicode_space s.

(** [s.split(sep)] for a one-character separator. *)
Fixpoint split (sep : pychar) (s : pystr) : list pystr :=
  match s with
  | [] => [[]]
  | c :: s' =>
      let r := split sep s' in
      if (c =? sep)%N then [] :: r else (c :: hd [] r) :: tl r
  end.

(** [sep.join(parts)] on a list of strings. *)
Fixpoint join (sep : pystr) (parts : list pystr) : pystr :=
  match parts with
  | [] => []
  | [p] => p
  | p :: ps => p ++ sep ++ join sep ps
  end.

(** [s.replace(old, new)] for a one-character [old]. *)
Definition replace (old : pychar) (new : pystr) (s : pystr) : pystr :=
  flat_map (fun c => if (c =? old)%N then new else [c]) s.

(** [s.startswith(c)] for a one-character prefix. *)
Definition startswith (c : pychar) (s : pystr) : bool :=
  match s with
  | c' :: _ => (c' =? c)%N
  | [] => false
  end.

(** [c in s] *)
Definition contains (c : pychar) (s : pystr) : bool := existsb (N.eqb c) s.

(** [s * n] *)
Definition repeat_str (s : pystr) (n : nat) : pystr := concat (repeat s n).

(** A line of text as [write] receives it. *)
Definition line (s : String.string) : pystr := lit s ++ [ch_nl].
Arguments line s%_string.

(** ** Exceptions *)

Inductive exn := ValueError | TypeError | IndexError | OverflowError.

Inductive result (A : Type) :=
| Ok (a : A)
| Raise (e : exn).
Arguments Ok {A} a.
Arguments Raise {A} e.

Definition bind {A B} (r : result A) (k : A -> result B) : result B :=
  match r with
  | Ok a => k a
  | Raise e => Raise e
  end.

Notation "x <- r ;; k" := (bind r (fun x => k))
  (at level 61, r at next level, right associativity).

Fixpoint mapM {A B} (f : A -> result B) (l : list A) : result (list B) :=
  match l with
  | [] => Ok []
  | a :: l' => b <- f a ;; bs <- mapM f l' ;; Ok (b :: bs)
  end.

(** ** Python [int]: [int(s)] and [str(n)] *)

Definition is_digit (c : pychar) : bool := ((48 <=? c) && (c <=? 57))%N.

Definition push_digit (c : pychar) (d : uint) : uint :=
  match (c - 48)%N with
  | 0%N => D0 d | 1%N => D1 d | 2%N => D2 d | 3%N => D3 d | 4%N => D4 d
  | 5%N => D5 d | 6%N => D6 d | 7%N => D7 d | 8%N => D8 d | _ => D9 d
  end.

Fixpoint uint_of_digits (s : pystr) : uint :=
  match s with
  | [] => Nil
  | c :: s' => push_digit c (uint_of_digits s')
  end.

Fixpoint digits_of_uint (d : uint) : pystr :=
  match d with
  | Nil => []
  | D0 d => 48%N :: digits_of_uint d | D1 d => 49%N :: digits_of_uint d
  | D2 d => 50%N :: digits_of_uint d | D3 d => 51%N :: digits_of_uint d
  | D4 d => 52%N :: digits_of_uint d | D5 d => 53%N :: digits_of_uint d
  | D6 d => 54%N :: digits_of_uint d | D7 d => 55%N :: digits_of_uint d
  | D8 d => 56%N :: digits_of_uint d | D9 d => 57%N :: digits_of_uint d
  end.

(** Underscores in a numeric literal: each one must stand between two
    digits; they are then dropped. *)
Fixpoint drop_underscores (prev_digit : bool) (s : pystr) : option pystr :=
  match s with
  | [] => Some []
  | c :: s' =>
      if (c =? ch_underscore)%N then
        match s' with
        | c' :: _ =>
            if prev_digit && is_digit c' then drop_underscores false s'
            else None
        | [] => None
        end
      else option_map (cons c) (drop_underscores (is_digit c) s')
  end.

(** An optional sign in front of a literal. *)
Definition split_sign (s : pystr) : bool * pystr :=
  match s with
  | c :: s' =>
      if (c =? ch_minus)%N then (true, s')
      else if (c =? ch_plus)%N then (false, s')
      else (false, s)
  | [] => (false, [])
  end.

Definition nonempty {A} (l : list A) : bool :=
  match l with [] => false | _ => true end.

(** A run of decimal digits, underscores allowed between digits. *)
Definition digit_run (s : pystr) : option pystr :=
  match drop_underscores false s with
  | Some ds => if nonempty ds && forallb is_digit ds then Some ds else None
  | None => None
  end.

(** [int(s)] for a [str] in base 10; [None] is [ValueError]. *)
Definition py_int (s : pystr) : option Z :=
  let '(neg, u) := split_sign (strip_by is_number_space s) in
  match digit_run u with
  | Some ds =>
      let v := Z.of_uint (uint_of_digits ds) in
      Some (if neg then - v else v)
  | None => None
  end.

(** [str(n)] for an [int]. *)
Definition str_int (n : Z) : pystr :=
  match Z.to_int n with
  | Pos d => digits_of_uint d
  | Neg d => ch_minus :: digits_of_uint d
  end.

Definition int_of_str (s : pystr) : result Z :=
  match py_int s with
  | Some n => Ok n
  | None => Raise ValueError
  end.

(** [with contextlib.suppress(ValueError): body] followed by [rest]: the
    body's [return] ends the function, a [ValueError] falls through to
    [rest], any other exception propagates. *)
Definition suppress_ValueError {A} (body rest : result A) : result A :=
  match body with
  | Raise ValueError => rest
  | r => r
  end.

(** ** Python [float]

    The built-in operations on [float] that the program calls.  They belong
    to the interpreter, not to this repository, and are kept abstract. *)

Class PyFloat := {
  pyfloat : Type;
  (** [float(s)] for a [str]; [None] is [ValueError] *)
  py_float : pystr -> option pyfloat;
  (** [str(f)] *)
  float_str : pyfloat -> pystr;
  (** [f.is_integer()] *)
  float_is_integer : pyfloat -> bool;
  (** [int(f)] *)
  float_to_int : pyfloat -> result Z;
  (** [f == 0.0], the negation of the truth value of [f] *)
  float_is_zero : pyfloat -> bool;
  (** ["%f" % f] *)
  float_fmt_f : pyfloat -> pystr
}.

Section Program.

Context {F : PyFloat}.

Definition float_of_str (s : pystr) : result pyfloat :=
  match py_float s with
  | Some f => Ok f
  | None => Raise ValueError
  end.

(** ** Cells and rows *)

Inductive Cell :=
| CStr (s : pystr)
| CInt (n : Z)
| CFloat (f : pyfloat)
| CNone.

Definition Row := list Cell.

(** [str(x)] *)
Definition py_str (x : Cell) : pystr :=
  match x with
  | CStr s => s
  | CInt n => str_int n
  | CFloat f => float_str f
  | CNone => lit "None"
  end.

(** The truth value of a cell, as [if x] tests it. *)
Definition truthy (x : Cell) : bool :=
  match x with
  | CStr s => nonempty s
  | CInt n => negb (n =? 0)
  | CFloat f => negb (float_is_zero f)
  | CNone => false
  end.

(** ** [re_numeric] and [numeric] *)

(** The character class at the head of [re_numeric]. *)
Definition currency_symbols : list pychar :=
  [36; 8364; 163; 165; 8355; 8377; 65194; 65243; 65159; 65020; 8379; 8381;
   8382; 8378; 8380; 8376; 8372; 8375; 3647; 50896; 8363; 8366; 8367; 8369;
   8371; 8373; 8370; 8362; 8368]%N.

Definition is_currency (c : pychar) : bool := existsb (N.eqb c) currency_symbols.

(** A character of the class [[,0-9]]. *)
Definition is_int_char (c : pychar) : bool := is_digit c || (c =? ch_comma)%N.

(** [re_numeric.match(y)] as a truth value.  Every group of the pattern is
    optional and the classes are pairwise disjoint, so the match is
    deterministic: an optional currency symbol, the longest run of
    [[,0-9]], an optional ["."] with the longest run of digits, and then
    [$], which holds at the end of the string or before a final newline. *)
Definition re_numeric_match (y : pystr) : bool :=
  let y1 := match y with
            | c :: r => if is_currency c then r else y
            | [] => []
            end in
  let y2 := lstrip_by is_int_char y1 in
  let y3 := match y2 with
            | c :: r => if (c =? ch_dot)%N then lstrip_by is_digit r else y2
            | [] => []
            end in
  match y3 with
  | [] => true
  | [c] => (c =? ch_nl)%N
  | _ => false
  end.

(** The [if m:] block of [numeric]. *)
Definition cook (y : pystr) : pystr :=
  if re_numeric_match y then
    let y := if startswith ch_dollar y then tl y else y in
    if contains ch_comma y then replace ch_comma [] y else y
  else y.

(** [numeric(x)] *)
Definition numeric (x : Cell) : result Cell :=
  let y := match x with CStr s => s | _ => py_str x end in
  let y := cook y in
  suppress_ValueError
    (n <- int_of_str y ;; Ok (CInt n))
    (suppress_ValueError
       (f <- float_of_str y ;;
        if float_is_integer f then n <- float_to_int f ;; Ok (CInt n)
        else Ok (CFloat f))
       (Ok x)).

(** ** [width] and [tabfmt] *)

(** [width(x)] *)
Definition width (x : Cell) : nat :=
  match x with
  | CStr s => length s
  | _ => length (py_str x)
  end.

(** ["%*s" % (w, s)] and ["%-*s" % (w, s)] for a width [w >= 0]. *)
Definition rjust (w : nat) (s : pystr) : pystr := repeat ch_space (w - length s) ++ s.
Definition ljust (w : nat) (s : pystr) : pystr := s ++ repeat ch_space (w - length s).

(** [tabfmt(val, width)] *)
Definition tabfmt (val : Cell) (w : nat) : pystr :=
  match val with
  | CInt n => rjust w (str_int n)
  | CFloat f => rjust w (float_fmt_f f)
  | _ => ljust w (py_str val)
  end.

(** ** The table writer *)

Inductive Style := Box | Ascii | Nosep.

Record TableWriter := {
  none_as : pystr;
  style : Style;
  col_sep : pystr;
  head_sep : pystr;
  markdown : bool;
  data : list Row
}.

(** The keyword arguments of [TableWriter.__init__]. *)
Record Flags := {
  flag_none_as : option pystr;
  flag_style : option Style;
  flag_col_sep : option pystr;
  flag_head_sep : option pystr;
  flag_markdown : option bool
}.

(** [flags.get(key, default)] *)
Definition get {A} (flag : option A) (default : A) : A :=
  match flag with
  | Some a => a
  | None => default
  end.

(** [TableWriter.__init__] *)
Definition TableWriter_init (flags : Flags) : TableWriter :=
  let st := get (flag_style flags) Box in
  {| none_as := get (flag_none_as flags) [];
     style := st;
     col_sep := match st with
                | Box => get (flag_col_sep flags) [ch_space; ch_box_v; ch_space]
                | Ascii => get (flag_col_sep flags) [ch_space; ch_pipe; ch_space]
                | Nosep => get (flag_col_sep flags) [ch_space]
                end;
     head_sep := match st with
                 | Box => get (flag_head_sep flags) [ch_box_h]
                 | Ascii => get (flag_head_sep flags) [ch_minus]
                 | Nosep => get (flag_head_sep flags) []
                 end;
     markdown := get (flag_markdown flags) false;
     data := [] |}.

Definition set_data (w : TableWriter) (d : list Row) : TableWriter :=
  {| none_as := none_as w; style := style w; col_sep := col_sep w;
     head_sep := head_sep w; markdown := markdown w; data := d |}.

(** [TableWriter.writerow] *)
Definition TableWriter_writerow (w : TableWriter) (row : Row) : TableWriter :=
  set_data w
    (data w ++ [map (fun v => match v with CNone => CStr (none_as w) | _ => v end) row]).

(** [l[i]] for [0 <= i] *)
Definition index {A} (l : list A) (i : nat) : result A :=
  match nth_error l i with
  | Some a => Ok a
  | None => Raise IndexError
  end.

(** [reduce(max, ws)] *)
Definition reduce_max (ws : list nat) : result nat :=
  match ws with
  | [] => Raise TypeError
  | w :: ws' => Ok (fold_left Nat.max ws' w)
  end.

(** [reduce(max, [width(data[r][c]) for r in range(len(data))])] *)
Definition column_width (d : list Row) (c : nat) : result nat :=
  ws <- mapM (fun r => row <- index d r ;; v <- index row c ;; Ok (width v))
             (seq 0 (length d)) ;;
  reduce_max ws.

(** The list [wid] of [writerows]. *)
Definition column_widths (d : list Row) : result (list nat) :=
  first <- index d 0 ;;
  mapM (column_width d) (seq 0 (length first)).

(** The text of one table line: [[tabfmt(row[c], wid[c]) ...]] joined. *)
Definition table_line (w : TableWriter) (wid : list nat) (row : Row) : result pystr :=
  cells <- mapM (fun c => v <- index row c ;; wc <- index wid c ;; Ok (tabfmt v wc))
                (seq 0 (length row)) ;;
  Ok (join (col_sep w) cells ++ [ch_nl]).

(** The text of the line between headings and body. *)
Definition divider_line (w : TableWriter) (wid : list nat) (row : Row) : result pystr :=
  bars <- mapM (fun c => wc <- index wid c ;; Ok (repeat_str (head_sep w) wc))
               (seq 0 (length row)) ;;
  Ok (join (replace ch_pipe [ch_plus]
             (replace ch_box_v [ch_box_cross]
                (replace ch_space (head_sep w) (col_sep w))))
           bars ++ [ch_nl]).

(** What a run has written to [outfile], one entry for each call of
    [write], and how the run ended. *)
Definition Output := (list pystr * option exn)%type.

Definition emit (s : pystr) (rest : Output) : Output := (s :: fst rest, snd rest).

(** The loop [for r in range(len(self.data))] of the table branch, from row
    number [r] on.  [heading_lines] is what the method reads as
    [opt.heading_lines]. *)
Fixpoint write_table_rows (w : TableWriter) (heading_lines : Z) (wid : list nat)
    (r : Z) (rows : list Row) : Output :=
  match rows with
  | [] => ([], None)
  | row :: rest =>
      match table_line w wid row with
      | Raise e => ([], Some e)
      | Ok line =>
          emit line
            (if (heading_lines >? 0) && (r <? heading_lines) then
               match style w with
               | Nosep => write_table_rows w heading_lines wid (r + 1) rest
               | _ =>
                   match divider_line w wid row with
                   | Raise e => ([], Some e)
                   | Ok div =>
                       emit div (write_table_rows w heading_lines wid (r + 1) rest)
                   end
               end
             else write_table_rows w heading_lines wid (r + 1) rest)
      end
  end.

(** The loop of the Markdown branch. *)
Fixpoint write_markdown_rows (heading_lines : Z) (r : Z) (rows : list Row) : Output :=
  match rows with
  | [] => ([], None)
  | row :: rest =>
      match mapM (fun c => v <- index row c ;; Ok (py_str v)) (seq 0 (length row)) with
      | Raise e => ([], Some e)
      | Ok cells =>
          emit (lit "| " ++ join (lit " | ") cells ++ [ch_nl])
            (if (heading_lines >? 0) && (r =? heading_lines - 1) then
               emit (repeat_str (lit "|-") (length row) ++ [ch_nl])
                    (write_markdown_rows heading_lines (r + 1) rest)
             else write_markdown_rows heading_lines (r + 1) rest)
      end
  end.

(** [TableWriter.writerows()] with no argument: write the table out and
    empty the buffer.  An exception leaves the buffer as it was.  The method
    reads the heading-row count from [opt], a name that [main] binds; it is a
    parameter here. *)
Definition TableWriter_writerows (heading_lines : Z) (w : TableWriter)
    : Output * TableWriter :=
  match data w with
  | [] => (([], None), w)
  | _ :: _ =>
      let out :=
        if markdown w then write_markdown_rows heading_lines 0 (data w)
        else match column_widths (data w) with
             | Raise e => ([], Some e)
             | Ok wid => write_table_rows w heading_lines wid 0 (data w)
             end in
      (out, match snd out with None => set_data w [] | Some _ => w end)
  end.

(** ** Field ranges: [parse_range] *)

(** A range [(n, m)]; [m = None] is Python's [None], "to the end". *)
Definition Range := (Z * option Z)%type.

(** The body of the loop of [parse_range] for one token [r]. *)
Definition parse_token (r : pystr) : result Range :=
  match split ch_minus r with
  | [p] =>
      m <- int_of_str p ;;
      Ok (m - 1, Some m)
  | [n; m] =>
      n' <- (if pystr_eqb n [] then Ok 0
             else v <- int_of_str n ;; Ok (v - 1)) ;;
      m' <- (if pystr_eqb m [] then Ok None
             else v <- int_of_str m ;; Ok (Some v)) ;;
      Ok (n', m')
  | _ => Raise ValueError  (* [n, m = r]: too many values to unpack *)
  end.

(** [parse_range(s)] *)
Definition parse_range (s : pystr) : result (list Range) :=
  mapM parse_token (map strip (split ch_comma s)).

(** ** List slices *)

(** A slice index brought into [0 .. len], as [PySlice_AdjustIndices] does
    for step 1. *)
Definition adjust_index (len i : Z) : Z :=
  if i <? 0 then Z.max 0 (i + len) else Z.min i len.

Definition slice_bounds (len : nat) (n : Z) (m : option Z) : nat * nat :=
  let l := Z.of_nat len in
  (Z.to_nat (adjust_index l n),
   Z.to_nat (match m with
             | Some m => adjust_index l m
             | None => l
             end)).

(** [row[n:m]] *)
Definition slice {A} (row : list A) (n : Z) (m : option Z) : list A :=
  let '(lo, hi) := slice_bounds (length row) n m in
  firstn (hi - lo) (skipn lo row).

(** [row[n:m] = new]: an upper bound below the lower one is raised to it. *)
Definition slice_assign {A} (row : list A) (n : Z) (m : option Z) (new : list A)
    : list A :=
  let '(lo, hi) := slice_bounds (length row) n m in
  firstn lo row ++ new ++ skipn (Nat.max lo hi) row.

(** ** The row pipeline of [main] *)

(** [sep.join(items)]: every item must be a [str]. *)
Definition str_join (sep : pystr) (items : list Cell) : result pystr :=
  parts <- mapM (fun x => match x with
                          | CStr s => Ok s
                          | _ => Raise TypeError
                          end) items ;;
  Ok (join sep parts).

(** One turn of the loop [for n, m in opt.join_fields]. *)
Definition join_range (joinchar : pystr) (row : Row) (r : Range) : result Row :=
  let '(n, m) := r in
  s <- str_join joinchar (filter truthy (slice row n m)) ;;
  Ok (slice_assign row n m [CStr s]).

Fixpoint join_stage (joinchar : pystr) (join_fields : list Range) (row : Row)
    : result Row :=
  match join_fields with
  | [] => Ok row
  | r :: rest => row' <- join_range joinchar row r ;; join_stage joinchar rest row'
  end.

(** The loop [for n, m in opt.keep: r.extend(row[n:m])]. *)
Definition keep_ranges (keep : list Range) (row : Row) : Row :=
  flat_map (fun '(n, m) => slice row n m) keep.

(** The options [main] works with once the command line is cooked.
    [func] is the evaluated [--lambda]: it returns a row, or [None] to drop
    the row, or raises. *)
Record Options := {
  heading_lines : Z;
  func : option (Z -> Row -> result (option Row));
  joinchar : pystr;
  join_fields : list Range;
  keep : option (list Range);
  args : list pystr
}.

(** The cooking of [--join]: the first character is the separator, the rest
    is a FIELDSPEC, whose ranges are reversed. *)
Definition cook_join (spec : pystr) : result (pystr * list Range) :=
  match spec with
  | [] => Ok ([], [])
  | c :: rest =>
      f <- parse_range rest ;;
      Ok ([c], List.rev f)
  end.

(** [if opt.keep:] holds for a list that is not empty. *)
Definition keep_stage (keep : option (list Range)) (row : Row) : Row :=
  match keep with
  | Some ((_ :: _) as k) => keep_ranges k row
  | _ => row
  end.

(** The body of the loop [for row in reader] for row number [i] (counted from
    1), up to the call of [writer.writerow]: [Ok (Some r)] hands [r] to the
    writer, [Ok None] is [continue]. *)
Definition process_row (opt : Options) (i : Z) (row : Row) : result (option Row) :=
  cooked <- (if i >? heading_lines opt then
               row <- mapM numeric row ;;
               match func opt with
               | Some f => f (i - heading_lines opt) row
               | None => Ok (Some row)
               end
             else Ok (Some row)) ;;
  match cooked with
  | None => Ok None
  | Some row =>
      row <- join_stage (joinchar opt) (join_fields opt) row ;;
      Ok (Some (keep_stage (keep opt) row))
  end.

(** What [main] needs of a writer. *)
Class Writer := {
  wstate : Type;
  writerow : wstate -> Row -> wstate
}.

(** The loop [for row in reader], after [i] rows. *)
Fixpoint main_loop {W : Writer} (opt : Options) (i : Z) (reader : list Row)
    (w : wstate) : wstate * option exn :=
  match reader with
  | [] => (w, None)
  | row :: rest =>
      let i := i + 1 in
      match process_row opt i row with
      | Raise e => (w, Some e)
      | Ok None => main_loop opt i rest w
      | Ok (Some row) => main_loop opt i rest (writerow w row)
      end
  end.

(** [main] from the command-line row to the end of the reader. *)
Definition main_rows {W : Writer} (opt : Options) (reader : list Row) (w : wstate)
    : wstate * option exn :=
  let w := if nonempty (args opt) then writerow w (map CStr (args opt)) else w in
  main_loop opt 0 reader w.

(** A writer that only records the rows it is given. *)
Definition LogWriter : Writer := {| wstate := list Row; writerow := fun w r => w ++ [r] |}.

(** The table writer as a writer of [main]. *)
Definition TableWriter_Writer : Writer :=
  {| wstate := TableWriter; writerow := TableWriter_writerow |}.

(** The end of [main] for the table and Markdown formats: once the reader
    is exhausted, [writer.writerows()] writes the buffered table. *)
Definition main_table (flags : Flags) (opt : Options) (reader : list Row) : Output :=
  let '(w, status) := main_rows (W := TableWriter_Writer) opt reader
                        (TableWriter_init flags) in
  match status with
  | Some e => ([], Some e)
  | None => fst (TableWriter_writerows (heading_lines opt) w)
  end.

(** ** Vocabulary of the properties *)

(** The command-line row, when there is one. *)
Definition literal_rows (opt : Options) : list Row :=
  if nonempty (args opt) then [map CStr (args opt)] else [].

(** The rows that the pipeline hands on, in the order of the numbered input:
    a dropped row leaves nothing. *)
Definition survivors (opt : Options) (rows : list (Z * Row)) : list Row :=
  flat_map (fun '(i, row) => match process_row opt i row with
                             | Ok (Some r) => [r]
                             | _ => []
                             end) rows.

(** The strings of a list of cells that are not empty. *)
Definition present_texts (cells : list Cell) : list pystr :=
  flat_map (fun x => match x with
                     | CStr (c :: s) => [c :: s]
                     | _ => []
                     end) cells.

Definition text_cell (x : Cell) : Prop :=
  match x with
  | CStr _ | CNone => True
  | _ => False
  end.

(** The widest cell of column [c] in a buffer of rows. *)
Definition column_max (d : list Row) (c : nat) : nat :=
  match map (fun row => width (nth c row CNone)) d with
  | [] => 0%nat
  | w :: ws => fold_left Nat.max ws w
  end.

(** A cell that is not a [float]. *)
Definition not_float (x : Cell) : Prop :=
  match x with
  | CFloat _ => False
  | _ => True
  end.

Definition table_flags (st : Style) : Flags :=
  {| flag_none_as := None; flag_style := Some st; flag_col_sep := None;
     flag_head_sep := None; flag_markdown := None |}.


(** Options with a heading-row count and nothing else. *)
Definition plain_options (n : Z) : Options :=
  {| heading_lines := n; func := None; joinchar := []; join_fields := [];
     keep := None; args := [] |}.

(** [--join "-1-2"] *)
Definition join_options (n : Z) : Options :=
  {| heading_lines := n; func := None; joinchar := lit "-";
     join_fields := [(0, Some 2)]; keep := None; args := [] |}.

(** [--headings 1 --join "-1-2" --keep 1] *)
Definition join_keep_options : Options :=
  {| heading_lines := 1; func := None; joinchar := lit "-";
     join_fields := [(0, Some 2)]; keep := Some [(0, Some 1)]; args := [] |}.

End Program.

(** The vocabulary of the properties of [numeric] and [parse_range]. *)


(** The tokens of a FIELDSPEC: the text between commas, stripped. *)
Definition tokens (s : pystr) : list pystr := map strip (split ch_comma s).

(** The number of ["-"] in a token. *)
Definition count_minus (t : pystr) : nat := count_occ N.eq_dec t ch_minus.

(** A piece that is present and is not a valid integer. *)
Definition invalid_piece (p : pystr) : Prop := p <> [] /\ py_int p = None.

(** A token with a present piece that is not a valid integer, or with more
    than one ["-"]. *)
Definition malformed_token (t : pystr) : Prop :=
  (1 < count_minus t)%nat \/ Exists invalid_piece (split ch_minus t).

(** A token that [parse_range] rejects: a malformed one, or an empty one. *)
Definition rejected_token (t : pystr) : Prop := malformed_token t \/ t = [].

Definition int_value (p : pystr) : Z :=
  match py_int p with
  | Some v => v
  | None => 0
  end.

(** The range of a token by the rules of the FIELDSPEC syntax: [N] is
    [(N-1, N)], and in [N-M] a missing [N] gives start 0, a missing [M] gives
    an unbounded end, otherwise start [N-1] and end [M]. *)
Definition rule_range (t : pystr) : Range :=
  match split ch_minus t with
  | [n] => (int_value n - 1, Some (int_value n))
  | n :: m :: _ =>
      (if nonempty n then int_value n - 1 else 0,
       if nonempty m then Some (int_value m) else None)
  | [] => (0, None)
  end.

(** The data-model invariant of a field range. *)
Definition range_invariant (r : Range) : Prop :=
  0 <= fst r /\ forall e, snd r = Some e -> fst r <= e.

(** The rows of a reader with their row numbers, counted from [i]. *)
Fixpoint number_from {A} (i : Z) (rows : list A) : list (Z * A) :=
  match rows with
  | [] => []
  | row :: rest => (i, row) :: number_from (i + 1) rest
  end.

(** ** The shell writer

    [shellify] comes from the library [handy]; it is a parameter here. *)

Section Shell.

Context {F : PyFloat}.
Variable shellify : Cell -> pystr.

Record ShellWriter := {
  shell_vars : option (list pystr);
  shell_none_as : pystr
}.

(** [ShellWriter.__init__] *)
Definition ShellWriter_init (none_as : option pystr) : ShellWriter :=
  {| shell_vars := None; shell_none_as := get none_as [] |}.

(** [ShellWriter.setHeadings] *)
Definition setHeadings (w : ShellWriter) (headings : Row) : ShellWriter :=
  {| shell_vars := Some (map py_str headings); shell_none_as := shell_none_as w |}.

(** The list of assignments of one row: [var.replace(" ", "_")], ["="] and
    [shellify(val)] for each pair of [zip(self.vars, r)]. *)
Definition shell_assignments (vars : list pystr) (r : Row) : list pystr :=
  map (fun '(var, val) => replace ch_space [ch_underscore] var ++ lit "=" ++ shellify val)
      (combine vars r).

(** [ShellWriter.writerow]: what it writes, one entry for each call of
    [write], and the writer afterwards.  [not self.vars] holds for [None] and
    for the empty list. *)
Definition ShellWriter_writerow (w : ShellWriter) (row : Row)
    : list pystr * ShellWriter :=
  match shell_vars w with
  | Some ((_ :: _) as vars) =>
      let r := map (fun val => match val with
                               | CNone => CStr (shell_none_as w)
                               | _ => val
                               end) row in
      ([join (lit ";") (shell_assignments vars r); [ch_nl]], w)
  | _ => ([], setHeadings w row)
  end.

(** [ShellWriter.writerows] *)
Fixpoint ShellWriter_writerows (w : ShellWriter) (rows : list Row)
    : list pystr * ShellWriter :=
  match rows with
  | [] => ([], w)
  | row :: rest =>
      let '(out, w') := ShellWriter_writerow w row in
      let '(out', w'') := ShellWriter_writerows w' rest in
      (out ++ out', w'')
  end.

(** The rows that follow the first row that is not empty. *)
Fixpoint after_headings (rows : list Row) : list Row :=
  match rows with
  | [] => []
  | [] :: rest => after_headings rest
  | (_ :: _) :: rest => rest
  end.

(** The first row that is not empty. *)
Fixpoint first_headings (rows : list Row) : option Row :=
  match rows with
  | [] => None
  | [] :: rest => first_headings rest
  | (c :: row) :: _ => Some (c :: row)
  end.

End Shell.

(** ** The cooking of [--outfmt] in [main] *)

(** [s.startswith(prefix)] *)
Fixpoint startswith_str (prefix s : pystr) : bool :=
  match prefix, s with
  | [], _ => true
  | p :: ps, c :: cs => (p =? c)%N && startswith_str ps cs
  | _ :: _, [] => false
  end.

(** [s in names] for a tuple of strings. *)
Definition in_names (s : pystr) (names : list pystr) : bool :=
  existsb (pystr_eqb s) names.

(** The style named by a string of [("ascii", "box", "nosep")]. *)
Definition style_of_name (s : pystr) : option Style :=
  if pystr_eqb s (lit "ascii") then Some Ascii
  else if pystr_eqb s (lit "box") then Some Box
  else if pystr_eqb s (lit "nosep") then Some Nosep
  else None.

(** Lines 425-437 of [main]: the value of [--outfmt] becomes the pair of
    [opt.outfmt] and [opt.style]; [None] is a call of [die], which ends the
    program. *)
Definition cook_outfmt (outfmt : pystr) : option (pystr * option Style) :=
  let cooked :=
    if startswith_str (lit "table") outfmt then
      if pystr_eqb outfmt (lit "table") then Some (lit "table", Some Box)
      else
        let style := skipn 5 outfmt in
        if negb (startswith ch_minus style) then None
        else
          let style := tl style in
          match style_of_name style with
          | Some st => Some (lit "table", Some st)
          | None => None
          end
    else Some (outfmt, None) in
  match cooked with
  | Some (fmt, st) =>
      if in_names fmt [lit "csv"; lit "shell"; lit "table"; lit "markdown"]
      then Some (fmt, st) else None
  | None => None
  end.

(** The values of [--outfmt] that the help text lists, as they are cooked. *)
Definition outfmt_table : list (pystr * (pystr * option Style)) :=
  [(lit "csv", (lit "csv", None));
   (lit "shell", (lit "shell", None));
   (lit "markdown", (lit "markdown", None));
   (lit "table", (lit "table", Some Box));
   (lit "table-ascii", (lit "table", Some Ascii));
   (lit "table-box", (lit "table", Some Box));
   (lit "table-nosep", (lit "table", Some Nosep))].


(** What [writerow] of the table writer puts in place of [None]. *)
Definition fill_none {F : PyFloat} (none_as : pystr) (v : Cell) : Cell :=
  match v with
  | CNone => CStr none_as
  | _ => v
  end.

(** The text that [tabfmt] pads. *)
Definition cell_text {F : PyFloat} (v : Cell) : pystr :=
  match v with
  | CFloat f => float_fmt_f f
  | _ => py_str v
  end.

(** A cell that is a number. *)
Definition is_number {F : PyFloat} (x : Cell) : Prop :=
  match x with
  | CInt _ | CFloat _ => True
  | _ => False
  end.

(** ** A decimal model of [float]

    An instance of [PyFloat] in which a finite float is an exact decimal
    number: a sign, an integer part and the fraction digits, kept in reverse
    as a number so that the fraction has no trailing zero.  [str] writes
    positional notation.  It agrees with the interpreter's binary floats on
    short decimal literals such as [3.25], and is what the concrete runs
    below are computed with. *)

Module DecFloat.

Inductive dfloat :=
| DNan
| DInf (neg : bool)
| DFin (neg : bool) (ip : N) (fr : N).

Definition lower (c : pychar) : pychar :=
  if ((65 <=? c) && (c <=? 90))%N then (c + 32)%N else c.

Fixpoint span_digits (s : pystr) : pystr * pystr :=
  match s with
  | c :: s' =>
      if is_digit c then let '(d, r) := span_digits s' in (c :: d, r)
      else ([], s)
  | [] => ([], [])
  end.

Definition nat_of_digits (s : pystr) : N := N.of_uint (uint_of_digits s).
Definition digits_of_N (n : N) : pystr := digits_of_uint (N.to_uint n).

(** The exponent part of a literal: nothing, or [e], a sign and digits. *)
Definition parse_exponent (s : pystr) : option Z :=
  match s with
  | [] => Some 0
  | c :: r =>
      if (lower c =? 101)%N then
        let '(neg, u) := split_sign r in
        if nonempty u && forallb is_digit u then
          let v := Z.of_N (nat_of_digits u) in
          Some (if neg then - v else v)
        else None
      else None
  end.

(** The value of the literal [id . fd e]: the point is moved by [e] digits. *)
Definition mk_fin (neg : bool) (id fd : pystr) (e : Z) : dfloat :=
  let '(id', fd') :=
    if 0 <=? e then
      let k := Z.to_nat e in
      (id ++ firstn k (fd ++ repeat ch_zero k), skipn k fd)
    else
      let k := Z.to_nat (- e) in
      let z := repeat ch_zero k ++ id in
      (firstn (length z - k) z, skipn (length z - k) z ++ fd) in
  DFin neg (nat_of_digits id') (nat_of_digits (List.rev fd')).

Definition of_str (s : pystr) : option dfloat :=
  let '(neg, u) := split_sign (strip_by is_number_space s) in
  let lu := map lower u in
  if pystr_eqb lu (lit "inf") || pystr_eqb lu (lit "infinity") then Some (DInf neg)
  else if pystr_eqb lu (lit "nan") then Some DNan
  else
    match drop_underscores false u with
    | None => None
    | Some v =>
        let '(id, r1) := span_digits v in
        let '(fd, r2) :=
          match r1 with
          | c :: r => if (c =? ch_dot)%N then span_digits r else ([], r1)
          | [] => ([], [])
          end in
        if nonempty id || nonempty fd then
          match parse_exponent r2 with
          | Some e => Some (mk_fin neg id fd e)
          | None => None
          end
        else None
    end.

Definition frac_digits (fr : N) : pystr :=
  if (fr =? 0)%N then [ch_zero] else List.rev (digits_of_N fr).

Definition sign_str (neg : bool) : pystr := if neg then [ch_minus] else [].

Definition to_str (f : dfloat) : pystr :=
  match f with
  | DNan => lit "nan"
  | DInf neg => sign_str neg ++ lit "inf"
  | DFin neg ip fr => sign_str neg ++ digits_of_N ip ++ ch_dot :: frac_digits fr
  end.

Definition is_integer (f : dfloat) : bool :=
  match f with
  | DFin _ _ fr => (fr =? 0)%N
  | _ => false
  end.

Definition to_int (f : dfloat) : result Z :=
  match f with
  | DNan => Raise ValueError
  | DInf _ => Raise OverflowError
  | DFin neg ip _ => Ok (if neg then - Z.of_N ip else Z.of_N ip)
  end.

Definition is_zero (f : dfloat) : bool :=
  match f with
  | DFin _ ip fr => ((ip =? 0) && (fr =? 0))%N
  | _ => false
  end.

(** ["%f"]: six fraction digits, the rest rounded half to even. *)
Definition fmt_f (f : dfloat) : pystr :=
  match f with
  | DNan => lit "nan"
  | DInf neg => sign_str neg ++ lit "inf"
  | DFin neg ip fr =>
      let fd := if (fr =? 0)%N then [] else List.rev (digits_of_N fr) in
      let kept := nat_of_digits (firstn 6 (fd ++ repeat ch_zero 6)) in
      let scaled := (ip * 1000000 + kept)%N in
      let up :=
        match skipn 6 fd with
        | [] => false
        | c :: rest =>
            if (53 <? c)%N then true
            else if (c =? 53)%N then nonempty rest || N.odd scaled
            else false
        end in
      let scaled := if up then (scaled + 1)%N else scaled in
      let low := digits_of_N (scaled mod 1000000) in
      sign_str neg ++ digits_of_N (scaled / 1000000) ++ ch_dot
        :: repeat ch_zero (6 - length low) ++ low
  end.

(** The characters of the text of a finite float. *)
Definition plain (c : pychar) : Prop := is_digit c = true \/ c = ch_minus \/ c = ch_dot.

Definition body (ip fr : N) : pystr := digits_of_N ip ++ ch_dot :: frac_digits fr.

Definition instance : PyFloat :=
  {| pyfloat := dfloat;
     py_float := of_str;
     float_str := to_str;
     float_is_integer := is_integer;
     float_to_int := to_int;
     float_is_zero := is_zero;
     float_fmt_f := fmt_f |}.

End DecFloat.

(** What the proofs use of the built-in [float]: [str] of a float reads back
    as the same float, is never an [int] literal, has no ["$"] in front and
    no [","], and [int] of a float that [is_integer] succeeds.  Not-a-number
    is taken as one value, equal to itself. *)
Class PyFloatLaws (F : PyFloat) : Prop := {
  float_str_roundtrip : forall f, py_float (float_str f) = Some f;
  float_str_not_int : forall f, py_int (float_str f) = None;
  float_str_no_dollar : forall f, startswith ch_dollar (float_str f) = false;
  float_str_no_comma : forall f, contains ch_comma (float_str f) = false;
  float_to_int_integer :
    forall f, float_is_integer f = true -> exists n, float_to_int f = Ok n
}.

(** * Properties *)

(** ** Strings and [int] *)

Lemma lstrip_by_id (sp : pychar -> bool) (s : pystr) :
  Forall (fun c => sp c = false) s -> lstrip_by sp s = s.
Proof.
  destruct 1 as [|c s Hc _]; simpl; [reflexivity|].
  now rewrite Hc.
Qed.

Lemma strip_by_id (sp : pychar -> bool) (s : pystr) :
  Forall (fun c => sp c = false) s -> strip_by sp s = s.
Proof.
  intros H. unfold strip_by.
  rewrite (lstrip_by_id sp s H).
  rewrite lstrip_by_id by now apply Forall_rev.
  apply rev_involutive.
Qed.


Lemma digits_of_uint_digits (d : uint) : forallb is_digit (digits_of_uint d) = true.
Proof. induction d; simpl; auto. Qed.

Lemma uint_of_digits_of_uint (d : uint) : uint_of_digits (digits_of_uint d) = d.
Proof. induction d; simpl; try rewrite IHd; reflexivity. Qed.

Lemma is_digit_not_underscore (c : pychar) :
  is_digit c = true -> (c =? ch_underscore)%N = false.
Proof.
  unfold is_digit, ch_underscore. intros H.
  apply andb_prop in H as [_ H]. apply N.leb_le in H.
  apply N.eqb_neq. lia.
Qed.



Lemma digits_of_uint_nonempty (d : uint) : d <> Nil -> digits_of_uint d <> [].
Proof. destruct d; simpl; congruence. Qed.

Lemma is_digit_not_space (c : pychar) : is_digit c = true -> is_number_space c = false.
Proof.
  unfold is_digit, is_number_space, is_ascii_space. intros H.
  apply andb_prop in H as [H1 H2]. apply N.leb_le in H1, H2.
  replace (c <? 128)%N with true by (symmetry; apply N.ltb_lt; lia).
  replace (c <=? 13)%N with false by (symmetry; apply N.leb_gt; lia).
  replace (c =? 32)%N with false by (symmetry; apply N.eqb_neq; lia).
  now rewrite andb_false_r.
Qed.


Lemma split_sign_digit (c : pychar) (r : pystr) :
  is_digit c = true -> split_sign (c :: r) = (false, c :: r).
Proof.
  intros H. unfold is_digit in H. apply andb_prop in H as [H1 H2].
  apply N.leb_le in H1, H2. unfold split_sign, ch_minus, ch_plus.
  replace (c =? 45)%N with false by (symmetry; apply N.eqb_neq; lia).
  replace (c =? 43)%N with false by (symmetry; apply N.eqb_neq; lia).
  reflexivity.
Qed.







(** ** [numeric] *)

Section Numeric.

Context {F : PyFloat} {L : PyFloatLaws F}.




Lemma numeric_of_cooked (x : Cell) (y : pystr) :
  y = cook (match x with CStr s => s | _ => py_str x end) ->
  numeric x =
    match py_int y with
    | Some n => Ok (CInt n)
    | None =>
        match py_float y with
        | Some f =>
            if float_is_integer f then
              match float_to_int f with
              | Ok n => Ok (CInt n)
              | Raise ValueError => Ok x
              | Raise e => Raise e
              end
            else Ok (CFloat f)
        | None => Ok x
        end
    end.
Proof.
  intros ->. unfold numeric, int_of_str, float_of_str.
  destruct (py_int _); simpl; [reflexivity|].
  destruct (py_float _) as [f|]; simpl; [|reflexivity].
  destruct (float_is_integer f); [|reflexivity].
  destruct (float_to_int f) as [n|[]]; reflexivity.
Qed.




Lemma numeric_total (x : Cell) : exists v, numeric x = Ok v.
Proof.
  rewrite (numeric_of_cooked x _ eq_refl).
  destruct (py_int _); [eauto|].
  destruct (py_float _) as [f|]; [|eauto].
  destruct (float_is_integer f) eqn:Hi; [|eauto].
  destruct (float_to_int_integer f Hi) as [n ->]. eauto.
Qed.



End Numeric.

(** ** [parse_range] *)

Lemma split_length (sep : pychar) (s : pystr) :
  length (split sep s) = S (count_occ N.eq_dec s sep).
Proof.
  induction s as [|c s IH]; [reflexivity|].
  cbn [split count_occ].
  destruct (N.eqb_spec c sep) as [->|Hne].
  - destruct (N.eq_dec sep sep); [|contradiction]. simpl. now rewrite IH.
  - destruct (N.eq_dec c sep); [contradiction|].
    destruct (split sep s); [discriminate|]. exact IH.
Qed.

Lemma split_absent (sep : pychar) (s : pystr) :
  count_occ N.eq_dec s sep = 0%nat -> split sep s = [s].
Proof.
  induction s as [|c s IH]; [reflexivity|].
  cbn [split count_occ].
  destruct (N.eq_dec c sep) as [->|Hne]; [discriminate|].
  intros H. rewrite (IH H).
  destruct (N.eqb_spec c sep); [contradiction|reflexivity].
Qed.

Lemma split_pieces_clean (sep : pychar) (s : pystr) :
  Forall (fun p => ~ In sep p) (split sep s).
Proof.
  induction s as [|c s IH]; [repeat constructor; auto|].
  cbn [split].
  destruct (N.eqb_spec c sep) as [->|Hne]; [constructor; auto|].
  destruct (split sep s) as [|h t]; simpl.
  - repeat constructor. intros [H|[]]. congruence.
  - inversion IH as [|? ? Hh Ht]; subst. constructor; [|assumption].
    intros [H|H]; [congruence|contradiction].
Qed.

Lemma pystr_eqb_nil (s : pystr) : pystr_eqb s [] = negb (nonempty s).
Proof. unfold pystr_eqb. destruct (list_eq_dec N.eq_dec s []); now destruct s. Qed.

Lemma int_of_str_value (p : pystr) :
  py_int p <> None -> int_of_str p = Ok (int_value p).
Proof. unfold int_of_str, int_value. now destruct (py_int p). Qed.

Lemma int_of_str_invalid (p : pystr) : py_int p = None -> int_of_str p = Raise ValueError.
Proof. unfold int_of_str. now intros ->. Qed.

Lemma py_int_nil : py_int [] = None.
Proof. reflexivity. Qed.

Lemma piece_cases (p : pystr) : p = [] \/ invalid_piece p \/ (p <> [] /\ py_int p <> None).
Proof.
  destruct p as [|c p]; [now left|right].
  destruct (py_int (c :: p)) eqn:H.
  - right. split; congruence.
  - left. split; congruence.
Qed.

Lemma parse_token_raises (t : pystr) :
  rejected_token t -> parse_token t = Raise ValueError.
Proof.
  unfold rejected_token, malformed_token, parse_token, count_minus.
  pose proof (split_length ch_minus t) as Hlen.
  intros H.
  destruct (split ch_minus t) as [|n [|m [|x r]]] eqn:Hs; try reflexivity.
  - simpl in Hlen. injection Hlen as Hlen. symmetry in Hlen.
    rewrite (split_absent _ _ Hlen) in Hs. injection Hs as <-.
    rewrite int_of_str_invalid; [reflexivity|].
    destruct H as [[H|H]|H].
    + lia.
    + inversion H as [? ? [_ Hp]|? ? Hp]; [assumption|inversion Hp].
    + now subst.
  - simpl in Hlen. injection Hlen as Hlen.
    rewrite !pystr_eqb_nil.
    destruct H as [[H|H]|H]; [lia| |subst; discriminate].
    inversion H as [? ? [Hn Hp]|? ? Hm]; subst.
    + destruct n; [contradiction|]. simpl. now rewrite int_of_str_invalid.
    + inversion Hm as [? ? [Hm' Hp]|? ? Hx]; [|inversion Hx]. subst.
      destruct m; [contradiction|].
      cbn [nonempty negb]. rewrite (int_of_str_invalid _ Hp).
      destruct (negb (nonempty n)); [reflexivity|].
      unfold int_of_str. now destruct (py_int n).
Qed.

Lemma parse_token_rule (t : pystr) :
  ~ rejected_token t -> parse_token t = Ok (rule_range t).
Proof.
  unfold rejected_token, malformed_token, parse_token, rule_range, count_minus.
  pose proof (split_length ch_minus t) as Hlen.
  intros H.
  destruct (split ch_minus t) as [|n [|m [|x r]]] eqn:Hs.
  - discriminate.
  - simpl in Hlen. injection Hlen as Hlen. symmetry in Hlen.
    rewrite (split_absent _ _ Hlen) in Hs. injection Hs as Hs. subst t.
    destruct (piece_cases n) as [Hn|[Hn|[_ Hn]]].
    + tauto.
    + exfalso. apply H. left. right. now constructor.
    + now rewrite (int_of_str_value _ Hn).
  - rewrite !pystr_eqb_nil.
    assert (Hn : n = [] \/ (n <> [] /\ py_int n <> None)).
    { destruct (piece_cases n) as [Hn|[Hn|Hn]]; auto.
      exfalso. apply H. left. right. now constructor. }
    assert (Hm : m = [] \/ (m <> [] /\ py_int m <> None)).
    { destruct (piece_cases m) as [Hm|[Hm|Hm]]; auto.
      exfalso. apply H. left. right. constructor 2. now constructor. }
    destruct Hn as [->|[Hn Hn']], Hm as [->|[Hm Hm']];
      try (destruct n; [contradiction|]); try (destruct m; [contradiction|]);
      cbn [nonempty negb]; rewrite ?int_of_str_value by assumption; reflexivity.
  - exfalso. apply H. left. left. simpl in Hlen. lia.
Qed.

Lemma rejected_token_dec (t : pystr) : rejected_token t \/ ~ rejected_token t.
Proof.
  unfold rejected_token, malformed_token, count_minus.
  pose proof (split_length ch_minus t) as Hlen.
  pose proof (Forall_forall (fun p => p = [] \/ invalid_piece p \/ (p <> [] /\ py_int p <> None))
                (split ch_minus t)) as [_ Hall].
  specialize (Hall (fun p _ => piece_cases p)).
  destruct (split ch_minus t) as [|n [|m [|x r]]] eqn:Hs.
  - discriminate.
  - cbn [length] in Hlen. injection Hlen as Hlen. symmetry in Hlen.
    rewrite (split_absent _ _ Hlen) in Hs. injection Hs as Hs. subst n.
    inversion Hall as [|? ? [Ht|[Ht|[Ht Ht']]] _]; subst.
    + left. now right.
    + left. left. right. now constructor.
    + right. intros [[H|H]|H]; [lia| |contradiction].
      inversion H as [? ? [_ Hp]|? ? Hp]; [contradiction|inversion Hp].
  - cbn [length] in Hlen. injection Hlen as Hlen.
    inversion Hall as [|? ? Hn Hall']; subst.
    inversion Hall' as [|? ? Hm _]; subst.
    destruct Hn as [Hn|[Hn|[Hn Hn']]]; [|left; left; right; now constructor|];
    (destruct Hm as [Hm|[Hm|[Hm Hm']]];
     [|left; left; right; constructor 2; now constructor|]);
    right; (intros [[H|H]|H]; [lia| |rewrite H in Hs; discriminate]);
    inversion H as [? ? [Hx Hp]|? ? H']; try contradiction;
    inversion H' as [? ? [Hx Hp]|? ? H'']; try contradiction; inversion H''.
  - left. left. left. cbn [length] in Hlen. lia.
Qed.

Lemma mapM_all_ok {A B} (f : A -> result B) (g : A -> B) (l : list A) :
  Forall (fun a => f a = Ok (g a)) l -> mapM f l = Ok (map g l).
Proof.
  induction 1 as [|a l Ha _ IH]; [reflexivity|].
  simpl. now rewrite Ha, IH.
Qed.

Lemma mapM_raises {A B} (f : A -> result B) (e : exn) (l : list A) :
  Forall (fun a => (exists b, f a = Ok b) \/ f a = Raise e) l ->
  Exists (fun a => f a = Raise e) l -> mapM f l = Raise e.
Proof.
  induction 1 as [|a l Ha _ IH]; intros Hex; [inversion Hex|].
  simpl. destruct Ha as [[b Hb]|Ha].
  - rewrite Hb. simpl. rewrite IH; [reflexivity|].
    inversion Hex as [? ? Hx|]; [congruence|assumption].
  - now rewrite Ha.
Qed.

Lemma parse_token_outcome (t : pystr) :
  (exists r, parse_token t = Ok r) \/ parse_token t = Raise ValueError.
Proof.
  destruct (rejected_token_dec t) as [H|H].
  - right. now apply parse_token_raises.
  - left. eexists. now apply parse_token_rule.
Qed.

Lemma parse_range_rejected (s : pystr) :
  Exists rejected_token (tokens s) -> parse_range s = Raise ValueError.
Proof.
  intros H. unfold parse_range. apply mapM_raises.
  - apply Forall_forall. intros t _. apply parse_token_outcome.
  - apply Exists_exists in H as (t & Ht & Hr). apply Exists_exists.
    exists t. split; [exact Ht|now apply parse_token_raises].
Qed.

Lemma parse_range_accepted (s : pystr) :
  ~ Exists rejected_token (tokens s) ->
  parse_range s = Ok (map rule_range (tokens s)).
Proof.
  intros H. unfold parse_range. apply mapM_all_ok.
  apply Forall_forall. intros t Ht. apply parse_token_rule.
  intros Hr. apply H. apply Exists_exists. now exists t.
Qed.

Lemma rejected_tokens_dec (s : pystr) :
  Exists rejected_token (tokens s) \/ ~ Exists rejected_token (tokens s).
Proof.
  induction (tokens s) as [|t l IH].
  - right. intros H. inversion H.
  - destruct (rejected_token_dec t) as [Ht|Ht]; [left; now constructor|].
    destruct IH as [IH|IH]; [left; now constructor 2|].
    right. intros H. inversion H; contradiction.
Qed.



Lemma In_lstrip_by (sp : pychar -> bool) (c : pychar) (s : pystr) :
  In c (lstrip_by sp s) -> In c s.
Proof.
  induction s as [|a s IH]; simpl; [auto|].
  destruct (sp a); [right; auto|auto].
Qed.

Lemma In_strip_by (sp : pychar -> bool) (c : pychar) (s : pystr) :
  In c (strip_by sp s) -> In c s.
Proof.
  unfold strip_by. intros H.
  apply in_rev, In_lstrip_by, in_rev in H. now apply In_lstrip_by in H.
Qed.

Lemma py_int_nonneg (p : pystr) (v : Z) :
  ~ In ch_minus p -> py_int p = Some v -> 0 <= v.
Proof.
  unfold py_int. intros Hp.
  pose proof (In_strip_by is_number_space ch_minus p) as Hin.
  destruct (strip_by is_number_space p) as [|c u]; [discriminate|].
  unfold split_sign.
  destruct (N.eqb_spec c ch_minus) as [->|_]; [exfalso; apply Hp, Hin; now left|].
  assert (Hv : forall w, match digit_run w with
                         | Some ds => Some (Z.of_uint (uint_of_digits ds))
                         | None => None
                         end = Some v -> 0 <= v).
  { intros w. destruct (digit_run w); [|discriminate].
    intros [= <-]. unfold Z.of_uint. apply N2Z.is_nonneg. }
  destruct (c =? ch_plus)%N; apply Hv.
Qed.

Lemma int_value_nonneg (p : pystr) : ~ In ch_minus p -> 0 <= int_value p.
Proof.
  intros Hp. unfold int_value.
  destruct (py_int p) eqn:H; [now apply (py_int_nonneg p)|lia].
Qed.

Lemma rule_range_bounds (t : pystr) :
  -1 <= fst (rule_range t) /\ forall e, snd (rule_range t) = Some e -> 0 <= e.
Proof.
  unfold rule_range.
  pose proof (split_pieces_clean ch_minus t) as Hc.
  destruct (split ch_minus t) as [|n [|m r]]; simpl.
  - split; [lia|discriminate].
  - inversion Hc as [|? ? Hn _]; subst.
    pose proof (int_value_nonneg n Hn).
    split; [lia|]. intros e [= <-]. assumption.
  - inversion Hc as [|? ? Hn Hc']; subst. inversion Hc' as [|? ? Hm _]; subst.
    pose proof (int_value_nonneg n Hn). pose proof (int_value_nonneg m Hm).
    split; [destruct (nonempty n); lia|].
    destruct (nonempty m); [|discriminate]. intros e [= <-]. assumption.
Qed.

(** C8 (as amended).  Every range of a successful [parse_range] is the range
    of its token by the FIELDSPEC rules; its start is at least [-1] and its
    end, when bounded, is not negative; and a token with no ["-"] is a valid
    integer [N >= 0] and yields exactly [(N-1, N)], so that start <= end
    there.  That the start is not negative, and that it is not above the end
    of an [N-M] token, is not checked by the parser. *)
Theorem parse_range_ranges (s : pystr) (rs : list Range) :
  parse_range s = Ok rs ->
  Forall2 (fun t r =>
             r = rule_range t /\
             -1 <= fst r /\ (forall e, snd r = Some e -> 0 <= e) /\
             (count_minus t = 0%nat ->
              exists N, py_int t = Some N /\ 0 <= N /\ r = (N - 1, Some N) /\
                        fst r <= N))
          (tokens s) rs.
Proof.
  intros Hp.
  destruct (rejected_tokens_dec s) as [H|H].
  { rewrite (parse_range_rejected s H) in Hp. discriminate. }
  rewrite (parse_range_accepted s H) in Hp. injection Hp as <-.
  assert (Hall : Forall (fun t => ~ rejected_token t) (tokens s)).
  { apply Forall_forall. intros t Ht Hr. apply H, Exists_exists. now exists t. }
  clear H. induction Hall as [|t l Ht _ IH]; simpl; constructor; [|exact IH].
  destruct (rule_range_bounds t) as [Hlo Hhi].
  repeat split; try assumption.
  intros Hc. unfold rule_range. unfold count_minus in Hc.
  pose proof (split_pieces_clean ch_minus t) as Hclean.
  rewrite (split_absent _ _ Hc) in *.
  inversion Hclean as [|? ? Hm _]; subst.
  destruct (piece_cases t) as [Hn|[Hn|[_ Hn]]].
  - exfalso. apply Ht. now right.
  - exfalso. apply Ht. left. right. rewrite (split_absent _ _ Hc). now constructor.
  - unfold int_value. destruct (py_int t) as [N|] eqn:HN; [|contradiction].
    exists N. pose proof (py_int_nonneg t N Hm HN).
    repeat split; simpl; try assumption; lia.
Qed.

(** C8, the claim as stated fails: field number [0] gives a negative start,
    and ["5-2"] a start above its end. *)
Lemma parse_range_invariant_broken :
  parse_range (lit "0,5-2") = Ok [(-1, Some 0); (4, Some 2)] /\
  ~ Forall range_invariant [(-1, Some 0); (4, Some 2)] /\
  ~ range_invariant (-1, Some 0) /\ ~ range_invariant (4, Some 2).
Proof.
  assert (H1 : ~ range_invariant (-1, Some 0)) by (intros [H _]; simpl in H; lia).
  assert (H2 : ~ range_invariant (4, Some 2)).
  { intros [_ H]. specialize (H 2 eq_refl). simpl in H. lia. }
  repeat split; try assumption.
  intros H. inversion H. contradiction.
Qed.

(** ** The row pipeline *)

Section Pipeline.

Context {F : PyFloat}.






Lemma str_join_texts (sep : pystr) (cells : list Cell) :
  Forall text_cell cells ->
  str_join sep (filter truthy cells) = Ok (join sep (present_texts cells)).
Proof.
  unfold str_join. intros H.
  assert (Hm : mapM (fun x => match x with
                              | CStr s => Ok s
                              | _ => Raise TypeError
                              end) (filter truthy cells)
               = Ok (present_texts cells)).
  { induction H as [|x l Hx _ IH]; [reflexivity|].
    destruct x as [[|c s]| | |]; simpl in *; try contradiction; try exact IH.
    now rewrite IH. }
  now rewrite Hm.
Qed.

(** On a slice of strings and absent values the join stage does what is
    expected of it: the slice becomes one cell, the present strings joined. *)
Lemma join_range_texts (joinchar : pystr) (row : Row) (n : Z) (m : option Z) :
  Forall text_cell (slice row n m) ->
  join_range joinchar row (n, m) =
    Ok (slice_assign row n m [CStr (join joinchar (present_texts (slice row n m)))]).
Proof.
  intros H. unfold join_range. now rewrite str_join_texts.
Qed.

(** C1 (as amended).  A heading row, one whose number is at most the
    heading-row count, skips numeric coercion and the row transform; the join
    stage and the keep stage are still applied to it.  It reaches the writer
    unchanged when no join range and no keep spec is configured. *)
Theorem heading_row_stages (opt : Options) (i : Z) (row : Row) :
  i <= heading_lines opt ->
  process_row opt i row =
    (joined <- join_stage (joinchar opt) (join_fields opt) row ;;
     Ok (Some (keep_stage (keep opt) joined))) /\
  (join_fields opt = [] -> keep opt = None -> process_row opt i row = Ok (Some row)).
Proof.
  intros Hi. unfold process_row.
  replace (i >? heading_lines opt) with false
    by (symmetry; rewrite Z.gtb_ltb; apply Z.ltb_ge; lia).
  split; [reflexivity|].
  intros -> ->. reflexivity.
Qed.

Lemma main_loop_order {W : Writer} (opt : Options) (reader : list Row) :
  forall (i : Z) (w : wstate),
  exists k,
    (k <= length reader)%nat /\
    fst (main_loop opt i reader w) =
      fold_left writerow (survivors opt (firstn k (number_from (i + 1) reader))) w /\
    match snd (main_loop opt i reader w) with
    | None => k = length reader
    | Some e =>
        exists row, nth_error reader k = Some row /\
                    process_row opt (i + 1 + Z.of_nat k) row = Raise e
    end /\
    Forall (fun '(j, row) => exists r, process_row opt j row = Ok r)
           (firstn k (number_from (i + 1) reader)).
Proof.
  induction reader as [|row rest IH]; intros i w.
  - exists 0%nat. simpl. repeat split; auto.
  - cbn [main_loop].
    destruct (process_row opt (i + 1) row) as [[r|]|e] eqn:Hp.
    + destruct (IH (i + 1) (writerow w r)) as (k & Hk & Hw & Hs & Hall).
      exists (S k). cbn [firstn number_from survivors flat_map length nth_error].
      rewrite Hp. repeat split.
      * lia.
      * exact Hw.
      * destruct (snd (main_loop opt (i + 1) rest (writerow w r))); [|lia].
        destruct Hs as (row' & Hn & Hr). exists row'. split; [exact Hn|].
        now replace (i + 1 + Z.of_nat (S k)) with (i + 1 + 1 + Z.of_nat k) by lia.
      * constructor; [eauto|exact Hall].
    + destruct (IH (i + 1) w) as (k & Hk & Hw & Hs & Hall).
      exists (S k). cbn [firstn number_from survivors flat_map length nth_error].
      rewrite Hp. repeat split.
      * lia.
      * exact Hw.
      * destruct (snd (main_loop opt (i + 1) rest w)); [|lia].
        destruct Hs as (row' & Hn & Hr). exists row'. split; [exact Hn|].
        now replace (i + 1 + Z.of_nat (S k)) with (i + 1 + 1 + Z.of_nat k) by lia.
      * constructor; [eauto|exact Hall].
    + exists 0%nat. simpl. repeat split; [lia| |constructor].
      exists row. split; [reflexivity|]. now rewrite Z.add_0_r.
Qed.

(** C9.  Whatever the writer and whatever rows the reader yields, what [main]
    hands to the writer is first the command-line row, when values were
    given, as it is, and then the rows the pipeline lets through, in input
    order: the rows of the whole input when the run ends normally, and of the
    input before the first row on which the pipeline raises otherwise. *)
Theorem main_order {W : Writer} (opt : Options) (reader : list Row) (w : wstate) :
  exists k,
    (k <= length reader)%nat /\
    fst (main_rows opt reader w) =
      fold_left writerow
        (literal_rows opt ++ survivors opt (firstn k (number_from 1 reader))) w /\
    match snd (main_rows opt reader w) with
    | None => k = length reader
    | Some e =>
        exists row, nth_error reader k = Some row /\
                    process_row opt (1 + Z.of_nat k) row = Raise e
    end /\
    Forall (fun '(j, row) => exists r, process_row opt j row = Ok r)
           (firstn k (number_from 1 reader)).
Proof.
  unfold main_rows, literal_rows.
  destruct (main_loop_order opt reader 0
              (if nonempty (args opt) then writerow w (map CStr (args opt)) else w))
    as (k & Hk & Hw & Hs & Hall).
  exists k. rewrite fold_left_app.
  repeat split; try assumption.
  rewrite Hw. now destruct (nonempty (args opt)).
Qed.

Lemma length_number_from {A} (rows : list A) :
  forall i, length (number_from i rows) = length rows.
Proof.
  induction rows as [|r l IH]; intros i; simpl; [reflexivity|]. now rewrite IH.
Qed.

Lemma fold_left_log (l w : list Row) :
  fold_left (writerow (Writer := LogWriter)) l w = w ++ l.
Proof.
  revert w. induction l as [|r l IH]; intros w; simpl; [now rewrite app_nil_r|].
  rewrite IH, <- app_assoc. reflexivity.
Qed.

(** For the writer that only records its rows, the record of a run that
    ends normally is the command-line row followed by the rows let
    through. *)
Lemma main_log_order (opt : Options) (reader : list Row) :
  snd (main_rows (W := LogWriter) opt reader []) = None ->
  fst (main_rows (W := LogWriter) opt reader [])
  = literal_rows opt ++ survivors opt (number_from 1 reader).
Proof.
  intros Hend. unfold main_rows, literal_rows in *.
  destruct (main_loop_order (W := LogWriter) opt reader 0
              (if nonempty (args opt)
               then writerow (Writer := LogWriter) [] (map CStr (args opt)) else []))
    as (k & Hk & Hw & Hs & _).
  rewrite Hend in Hs. subst k.
  rewrite <- (length_number_from reader (0 + 1)), firstn_all in Hw.
  rewrite Hw, fold_left_log. now destruct (nonempty (args opt)).
Qed.

End Pipeline.

(** ** The table writer *)

Section Table.

Context {F : PyFloat}.

Lemma index_app_here {A} (pre l : list A) (a : A) :
  index (pre ++ a :: l) (length pre) = Ok a.
Proof.
  unfold index. rewrite nth_error_app2 by lia. now rewrite Nat.sub_diag.
Qed.

Lemma shift_prefix {A} (pre l : list A) (a : A) :
  pre ++ a :: l = (pre ++ [a]) ++ l /\ S (length pre) = length (pre ++ [a]).
Proof.
  split; [now rewrite <- app_assoc|].
  rewrite length_app. simpl. lia.
Qed.

(** The comprehension [[g(l1[c], l2[c]) for c in range(len(l1))]] when [l2]
    is at least as long as [l1]. *)
Lemma mapM_index2 {A B C} (g : A -> B -> C) (l1 : list A) :
  forall (l2 : list B) (pre1 : list A) (pre2 : list B),
  length pre1 = length pre2 -> (length l1 <= length l2)%nat ->
  mapM (fun c => v <- index (pre1 ++ l1) c ;; w <- index (pre2 ++ l2) c ;; Ok (g v w))
       (seq (length pre1) (length l1))
  = Ok (map (fun p => g (fst p) (snd p)) (combine l1 l2)).
Proof.
  induction l1 as [|a l1 IH]; intros l2 pre1 pre2 Hpre Hlen; [reflexivity|].
  destruct l2 as [|b l2]; [simpl in Hlen; lia|].
  cbn [length seq mapM combine map fst snd].
  rewrite index_app_here, Hpre, index_app_here. cbn [bind].
  destruct (shift_prefix pre1 l1 a) as [E1 L1].
  destruct (shift_prefix pre2 l2 b) as [E2 L2].
  rewrite <- Hpre, E1, E2, L1.
  rewrite IH; [reflexivity| |simpl in Hlen; lia].
  rewrite !length_app. simpl. lia.
Qed.

Lemma column_width_rows (c : nat) (l : list Row) :
  forall pre : list Row,
  Forall (fun row => (c < length row)%nat) l ->
  mapM (fun r => row <- index (pre ++ l) r ;; v <- index row c ;; Ok (width v))
       (seq (length pre) (length l))
  = Ok (map (fun row => width (nth c row CNone)) l).
Proof.
  induction l as [|row l IH]; intros pre Hl; [reflexivity|].
  inversion Hl as [|? ? Hrow Hl']; subst.
  cbn [length seq mapM map].
  rewrite index_app_here. cbn [bind].
  unfold index at 1. rewrite (nth_error_nth' row CNone Hrow). cbn [bind].
  destruct (shift_prefix pre l row) as [E L]. rewrite E, L.
  now rewrite IH.
Qed.

Lemma column_width_max (d : list Row) (c : nat) :
  d <> [] -> Forall (fun row => (c < length row)%nat) d ->
  column_width d c = Ok (column_max d c).
Proof.
  intros Hne Hd. unfold column_width, column_max.
  pose proof (column_width_rows c d [] Hd) as H.
  change ([] ++ d) with d in H. cbn [length] in H.
  rewrite H. cbn [bind].
  destruct d; [contradiction|reflexivity].
Qed.

Lemma fold_left_max_ge (ws : list nat) :
  forall a x, In x (a :: ws) -> (x <= fold_left Nat.max ws a)%nat.
Proof.
  induction ws as [|w ws IH]; intros a x Hx; simpl.
  - destruct Hx as [->|[]]. lia.
  - destruct Hx as [->|[->|Hx]].
    + etransitivity; [|apply IH; now left]. lia.
    + etransitivity; [|apply IH; now left]. lia.
    + apply IH. now right.
Qed.

Lemma column_max_ge (d : list Row) (c : nat) (row : Row) :
  In row d -> (width (nth c row CNone) <= column_max d c)%nat.
Proof.
  intros Hin. unfold column_max.
  pose proof (in_map (fun row => width (nth c row CNone)) d row Hin) as H.
  cbv beta in H.
  destruct (map (fun row => width (nth c row CNone)) d) as [|w ws]; [contradiction|].
  now apply fold_left_max_ge.
Qed.

Lemma rectangular_columns (d : list Row) (n : nat) :
  Forall (fun row => length row = n) d ->
  forall c, (c < n)%nat -> Forall (fun row => (c < length row)%nat) d.
Proof.
  intros Hd c Hc. eapply Forall_impl; [|exact Hd]. simpl. intros row ->. exact Hc.
Qed.

(** On a buffer whose rows all have [n] cells the widths are computed
    without an exception: one width for each column, the widest cell. *)
Lemma column_widths_rectangular (d : list Row) (n : nat) :
  d <> [] -> Forall (fun row => length row = n) d ->
  column_widths d = Ok (map (column_max d) (seq 0 n)).
Proof.
  intros Hne Hd. unfold column_widths.
  destruct d as [|first d']; [contradiction|].
  cbn [index nth_error bind].
  inversion Hd as [|? ? Hfirst _]; subst.
  apply mapM_all_ok. apply Forall_forall. intros c Hc.
  apply in_seq in Hc. apply column_width_max; [assumption|].
  apply (rectangular_columns _ _ Hd). lia.
Qed.

Lemma cells_fit (d : list Row) (row : Row) :
  In row d ->
  forall k (suffix : Row),
  (forall c v, nth_error suffix c = Some v -> nth_error row (k + c) = Some v) ->
  Forall2 (fun v wc => (width v <= wc)%nat) suffix
          (map (column_max d) (seq k (length suffix))).
Proof.
  intros Hin k suffix. revert k.
  induction suffix as [|v suffix IH]; intros k Hs; simpl; constructor.
  - specialize (Hs 0%nat v eq_refl). rewrite Nat.add_0_r in Hs.
    rewrite <- (nth_error_nth row k CNone Hs). now apply column_max_ge.
  - apply IH. intros c v' Hc. specialize (Hs (S c) v' Hc).
    now replace (S k + c)%nat with (k + S c)%nat by lia.
Qed.

Lemma length_rjust (w : nat) (s : pystr) :
  (length s <= w)%nat -> length (rjust w s) = w.
Proof. intros H. unfold rjust. rewrite length_app, repeat_length. lia. Qed.

Lemma length_ljust (w : nat) (s : pystr) :
  (length s <= w)%nat -> length (ljust w s) = w.
Proof. intros H. unfold ljust. rewrite length_app, repeat_length. lia. Qed.

Lemma length_tabfmt (v : Cell) (w : nat) :
  not_float v -> (width v <= w)%nat -> length (tabfmt v w) = w.
Proof.
  unfold not_float, width, tabfmt.
  destruct v; intros Hf Hw; try contradiction;
    (apply length_rjust || apply length_ljust); assumption.
Qed.

Lemma length_join (sep : pystr) (parts : list pystr) :
  length (join sep parts)
  = (list_sum (map (@length pychar) parts) + (length parts - 1) * length sep)%nat.
Proof.
  induction parts as [|p parts IH]; [reflexivity|].
  destruct parts as [|q parts]; [simpl; lia|].
  change (join sep (p :: q :: parts)) with (p ++ sep ++ join sep (q :: parts)).
  rewrite !length_app, IH. simpl. lia.
Qed.

Lemma lengths_tabfmt (row : Row) (wid : list nat) :
  Forall not_float row ->
  Forall2 (fun v wc => (width v <= wc)%nat) row wid ->
  map (@length pychar) (map (fun p => tabfmt (fst p) (snd p)) (combine row wid)) = wid.
Proof.
  intros Hf H. induction H as [|v wc row wid Hv _ IH]; [reflexivity|].
  inversion Hf; subst. simpl. rewrite length_tabfmt by assumption.
  now rewrite IH.
Qed.

(** X20.  Where the claim about equal line widths holds: in a buffer of rows
    of [n] cells, none of them a float, every row is rendered without an
    exception as a line whose length is the sum of the column widths plus the
    separators between them (and the newline). *)
Lemma table_lines_same_width (w : TableWriter) (d : list Row) (n : nat) :
  d <> [] ->
  Forall (fun row => length row = n /\ Forall not_float row) d ->
  exists wid,
    column_widths d = Ok wid /\ length wid = n /\
    Forall (fun row =>
              exists l, table_line w wid row = Ok l /\
                        length l = (list_sum wid + (n - 1) * length (col_sep w) + 1)%nat)
           d.
Proof.
  intros Hne Hd.
  assert (Hrect : Forall (fun row => length row = n) d).
  { eapply Forall_impl; [|exact Hd]. now intros row [H _]. }
  exists (map (column_max d) (seq 0 n)).
  split; [now apply column_widths_rectangular|].
  split; [now rewrite length_map, length_seq|].
  apply Forall_forall. intros row Hin.
  rewrite Forall_forall in Hd. destruct (Hd row Hin) as [Hlen Hnf].
  pose proof (cells_fit d row Hin 0 row (fun c v H => H)) as Hfit.
  rewrite Hlen in Hfit.
  eexists. split.
  - unfold table_line.
    pose proof (mapM_index2 tabfmt row (map (column_max d) (seq 0 n)) [] [] eq_refl)
      as H.
    change ([] ++ row) with row in H.
    change ([] ++ map (column_max d) (seq 0 n)) with (map (column_max d) (seq 0 n)) in H.
    cbn [length] in H. rewrite H by (rewrite length_map, length_seq; lia).
    reflexivity.
  - rewrite length_app, length_join, lengths_tabfmt by assumption.
    rewrite length_map, length_combine, length_map, length_seq, Hlen.
    simpl. lia.
Qed.

Lemma write_table_rows_body (w : TableWriter) (hl : Z) (wid : list nat) (rows : list Row) :
  forall r, hl <= r ->
  write_table_rows w hl wid r rows = write_table_rows w 0 wid r rows.
Proof.
  induction rows as [|row rows IH]; intros r Hr; [reflexivity|].
  cbn [write_table_rows].
  replace (r <? hl) with false by (symmetry; apply Z.ltb_ge; lia).
  rewrite andb_false_r. cbn [Z.gtb Z.compare andb].
  now rewrite IH by lia.
Qed.

(** Where the claim about the divider holds: style "nosep" never writes it,
    whatever the heading-row count. *)
Lemma write_table_rows_nosep (w : TableWriter) (hl : Z) (wid : list nat) (rows : list Row) :
  style w = Nosep ->
  forall r, write_table_rows w hl wid r rows = write_table_rows w 0 wid r rows.
Proof.
  intros Hs. induction rows as [|row rows IH]; intros r; [reflexivity|].
  cbn [write_table_rows]. rewrite Hs, !IH.
  cbn [Z.gtb Z.compare andb].
  now destruct ((hl >? 0) && (r <? hl)).
Qed.

(** With a heading-row count of 0 only the rows are written. *)
Lemma write_table_rows_plain (w : TableWriter) (wid : list nat) (rows : list Row) :
  forall r, exists k,
    Forall2 (fun row l => table_line w wid row = Ok l)
            (firstn k rows) (fst (write_table_rows w 0 wid r rows)).
Proof.
  induction rows as [|row rows IH]; intros r.
  - exists 0%nat. constructor.
  - cbn [write_table_rows Z.gtb Z.compare andb].
    destruct (table_line w wid row) as [l|e] eqn:Hl.
    + destruct (IH (r + 1)) as [k Hk]. exists (S k). simpl. now constructor.
    + exists 0%nat. constructor.
Qed.

(** And with a heading-row count of 1 the divider is written once, after the
    first row. *)
Lemma write_table_rows_one_heading (w : TableWriter) (wid : list nat)
    (row : Row) (rows : list Row) (l div : pystr) :
  style w <> Nosep ->
  table_line w wid row = Ok l -> divider_line w wid row = Ok div ->
  write_table_rows w 1 wid 0 (row :: rows)
  = emit l (emit div (write_table_rows w 0 wid 1 rows)).
Proof.
  intros Hs Hl Hd. cbn [write_table_rows]. rewrite Hl, Hd.
  cbn [Z.gtb Z.ltb Z.compare andb Z.add].
  rewrite (write_table_rows_body w 1 wid rows 1) by lia.
  now destruct (style w).
Qed.

End Table.

(** ** The decimal model satisfies the laws of [float] *)

Module DecFloatFacts.
Import DecFloat.

Lemma plain_facts (c : pychar) :
  plain c ->
  is_number_space c = false /\ (c =? ch_underscore)%N = false /\
  (c =? ch_dollar)%N = false /\ (ch_comma =? c)%N = false.
Proof.
  intros [H|[->| ->]]; [|repeat split; reflexivity..].
  split; [now apply is_digit_not_space|].
  split; [now apply is_digit_not_underscore|].
  unfold is_digit in H. apply andb_prop in H as [H _]. apply N.leb_le in H.
  unfold ch_dollar, ch_comma. split; apply N.eqb_neq; lia.
Qed.

Lemma digits_plain (s : pystr) : forallb is_digit s = true -> Forall plain s.
Proof.
  intros H. rewrite forallb_forall in H. apply Forall_forall.
  intros c Hc. left. now apply H.
Qed.

Lemma digits_of_N_digits (n : N) : forallb is_digit (digits_of_N n) = true.
Proof. apply digits_of_uint_digits. Qed.

Lemma digits_of_N_nonempty (n : N) : digits_of_N n <> [].
Proof.
  unfold digits_of_N. apply digits_of_uint_nonempty.
  destruct n; simpl; [discriminate|apply Unsigned.to_uint_nonnil].
Qed.

Lemma nat_of_digits_of_N (n : N) : nat_of_digits (digits_of_N n) = n.
Proof.
  unfold nat_of_digits, digits_of_N.
  rewrite uint_of_digits_of_uint. apply DecimalN.Unsigned.of_to.
Qed.

Lemma frac_digits_digits (fr : N) : forallb is_digit (frac_digits fr) = true.
Proof.
  unfold frac_digits. destruct (fr =? 0)%N; [reflexivity|].
  rewrite forallb_forall. intros c Hc. apply in_rev in Hc.
  pose proof (digits_of_N_digits fr) as H. rewrite forallb_forall in H. now apply H.
Qed.

Lemma nat_of_frac_digits (fr : N) : nat_of_digits (List.rev (frac_digits fr)) = fr.
Proof.
  unfold frac_digits. destruct (N.eqb_spec fr 0) as [->|_]; [reflexivity|].
  rewrite rev_involutive. apply nat_of_digits_of_N.
Qed.

Lemma sign_str_plain (neg : bool) : Forall plain (sign_str neg).
Proof.
  destruct neg; [|constructor].
  constructor; [right; now left|constructor].
Qed.

Lemma body_plain (ip fr : N) : Forall plain (body ip fr).
Proof.
  apply Forall_app. split; [apply digits_plain, digits_of_N_digits|].
  constructor; [right; now right|apply digits_plain, frac_digits_digits].
Qed.

Lemma to_str_plain (neg : bool) (ip fr : N) : Forall plain (to_str (DFin neg ip fr)).
Proof. apply Forall_app. split; [apply sign_str_plain|apply body_plain]. Qed.

Lemma plain_no_space (s : pystr) :
  Forall plain s -> Forall (fun c => is_number_space c = false) s.
Proof. apply Forall_impl. intros c Hc. now destruct (plain_facts c Hc). Qed.

Lemma drop_underscores_plain (s : pystr) (b : bool) :
  Forall plain s -> drop_underscores b s = Some s.
Proof.
  intros H. revert b. induction H as [|c s Hc _ IH]; intros b; [reflexivity|].
  cbn [drop_underscores].
  destruct (plain_facts c Hc) as (_ & -> & _). now rewrite IH.
Qed.

Lemma body_head (ip fr : N) :
  exists c r, body ip fr = c :: r /\ is_digit c = true.
Proof.
  unfold body. pose proof (digits_of_N_nonempty ip) as Hne.
  pose proof (digits_of_N_digits ip) as Hd.
  destruct (digits_of_N ip) as [|c r]; [contradiction|].
  exists c, (r ++ ch_dot :: frac_digits fr). split; [reflexivity|].
  simpl in Hd. now apply andb_prop in Hd as [Hd _].
Qed.

Lemma split_sign_to_str (neg : bool) (ip fr : N) :
  split_sign (to_str (DFin neg ip fr)) = (neg, body ip fr).
Proof.
  cbn [to_str]. fold (body ip fr).
  destruct neg; [reflexivity|]. cbn [sign_str app].
  destruct (body_head ip fr) as (c & r & Hb & Hc). rewrite Hb.
  now apply split_sign_digit.
Qed.

Lemma lower_digit (c : pychar) : is_digit c = true -> lower c = c /\ (c < 65)%N.
Proof.
  unfold is_digit, lower. intros H. apply andb_prop in H as [_ H].
  apply N.leb_le in H.
  replace (65 <=? c)%N with false by (symmetry; apply N.leb_gt; lia).
  split; [reflexivity|lia].
Qed.

Lemma not_a_name (c : pychar) (r name : pystr) :
  is_digit c = true ->
  match name with a :: _ => (65 <= a)%N | [] => True end ->
  pystr_eqb (map lower (c :: r)) name = false.
Proof.
  intros Hc Hn. unfold pystr_eqb.
  destruct (list_eq_dec N.eq_dec (map lower (c :: r)) name) as [E|]; [|reflexivity].
  destruct (lower_digit c Hc) as [Hl Hlt].
  destruct name as [|a name]; [discriminate|].
  simpl in E. injection E as E _. lia.
Qed.

Lemma span_digits_app (d rest : pystr) :
  forallb is_digit d = true ->
  match rest with c :: _ => is_digit c = false | [] => True end ->
  span_digits (d ++ rest) = (d, rest).
Proof.
  intros Hd Hr. induction d as [|c d IH]; simpl.
  - destruct rest as [|c r]; [reflexivity|]. simpl. now rewrite Hr.
  - simpl in Hd. apply andb_prop in Hd as [Hc Hd]. now rewrite Hc, (IH Hd).
Qed.

Lemma of_str_to_str (f : dfloat) : of_str (to_str f) = Some f.
Proof.
  destruct f as [|[]|neg ip fr]; try reflexivity.
  unfold of_str.
  rewrite (strip_by_id _ _ (plain_no_space _ (to_str_plain neg ip fr))).
  rewrite split_sign_to_str.
  destruct (body_head ip fr) as (c & r & Hb & Hc).
  assert (Hname : forall name,
             match name with a :: _ => (65 <= a)%N | [] => True end ->
             pystr_eqb (map lower (body ip fr)) name = false).
  { intros name Hn. rewrite Hb. now apply not_a_name. }
  rewrite !Hname by (simpl; lia).
  cbn [orb].
  rewrite (drop_underscores_plain _ _ (body_plain ip fr)).
  unfold body at 1.
  rewrite span_digits_app by (apply digits_of_N_digits || reflexivity).
  cbn [N.eqb ch_dot Pos.eqb].
  pose proof (span_digits_app (frac_digits fr) [] (frac_digits_digits fr) I) as Hf.
  rewrite app_nil_r in Hf. rewrite Hf.
  pose proof (digits_of_N_nonempty ip) as Hne.
  destruct (digits_of_N ip) as [|c' r'] eqn:Hd; [contradiction|].
  cbn [nonempty orb parse_exponent]. unfold mk_fin.
  cbn [Z.leb Z.compare Z.to_nat firstn skipn].
  rewrite app_nil_r, <- Hd, nat_of_digits_of_N, nat_of_frac_digits. reflexivity.
Qed.

Lemma py_int_to_str (f : dfloat) : py_int (to_str f) = None.
Proof.
  destruct f as [|[]|neg ip fr]; try reflexivity.
  unfold py_int.
  rewrite (strip_by_id _ _ (plain_no_space _ (to_str_plain neg ip fr))).
  rewrite split_sign_to_str. unfold digit_run.
  rewrite (drop_underscores_plain _ _ (body_plain ip fr)).
  unfold body. rewrite forallb_app. cbn [forallb].
  replace (is_digit ch_dot) with false by reflexivity.
  now rewrite andb_false_r, andb_false_r.
Qed.

Lemma to_str_no_dollar (f : dfloat) : startswith ch_dollar (to_str f) = false.
Proof.
  destruct f as [|[]|neg ip fr]; try reflexivity.
  pose proof (to_str_plain neg ip fr) as H.
  destruct H as [|c l Hc _]; [reflexivity|].
  cbn [startswith]. now destruct (plain_facts c Hc) as (_ & _ & -> & _).
Qed.

Lemma to_str_no_comma (f : dfloat) : contains ch_comma (to_str f) = false.
Proof.
  destruct f as [|[]|neg ip fr]; try reflexivity.
  pose proof (to_str_plain neg ip fr) as H. unfold contains.
  induction H as [|c l Hc _ IH]; [reflexivity|].
  cbn [existsb]. rewrite IH.
  now destruct (plain_facts c Hc) as (_ & _ & _ & ->).
Qed.

Lemma to_int_integer (f : dfloat) :
  is_integer f = true -> exists n, to_int f = Ok n.
Proof. destruct f; simpl; try discriminate. eauto. Qed.

Lemma laws : PyFloatLaws instance.
Proof.
  constructor.
  - exact of_str_to_str.
  - exact py_int_to_str.
  - exact to_str_no_dollar.
  - exact to_str_no_comma.
  - exact to_int_integer.
Qed.

End DecFloatFacts.

(** ** Concrete runs, computed with the decimal model of [float] *)

Section Runs.

#[local] Existing Instance DecFloat.instance.

(** The doctests of [numeric]. *)
Example numeric_doctests :
  numeric (CStr (lit "4")) = Ok (CInt 4) /\
  numeric (CStr (lit "4.0000")) = Ok (CInt 4) /\
  numeric (CStr (lit "3.25")) = Ok (CFloat (DecFloat.DFin false 3 52)) /\
  numeric (CStr (lit "testing")) = Ok (CStr (lit "testing")) /\
  numeric (CStr (lit "$123,456.789")) = Ok (CFloat (DecFloat.DFin false 123456 987)).
Proof. repeat split; reflexivity. Qed.

(** A bare ["."] and the empty string stay strings; ["5."] is the number 5;
    a pound sign is matched by [re_numeric] and is not stripped. *)
Example numeric_edge_cases :
  numeric (CStr (lit ".")) = Ok (CStr (lit ".")) /\
  numeric (CStr []) = Ok (CStr []) /\
  numeric (CStr (lit "5.")) = Ok (CInt 5) /\
  re_numeric_match (163%N :: lit "5") = true /\
  numeric (CStr (163%N :: lit "5")) = Ok (CStr (163%N :: lit "5")) /\
  numeric (CStr (lit " 42 ")) = Ok (CInt 42) /\
  numeric (CStr (lit "1e5")) = Ok (CInt 100000).
Proof. repeat split; reflexivity. Qed.

(** Python's own answers on the slices the pipeline takes. *)
Example slice_assign_examples :
  slice_assign [1; 2; 3] 5 (Some 2) [9] = [1; 2; 3; 9] /\
  slice_assign [1; 2; 3] 2 (Some 1) [9] = [1; 2; 9; 3] /\
  slice_assign [1; 2; 3] (-1) (Some 0) [9] = [1; 2; 9; 3] /\
  slice_assign [1; 2; 3] (-5) None [9] = [9] /\
  slice_assign [1; 2; 3] 1 (Some (-1)) [9] = [1; 9; 3] /\
  slice [1; 2; 3] (-1) (Some 0) = [].
Proof. repeat split; reflexivity. Qed.

(** The examples of the join stage. *)
Example join_examples :
  join_range (lit "-") [CStr (lit "a"); CStr (lit "b"); CStr (lit "c"); CStr (lit "d")]
             (0, Some 2)
    = Ok [CStr (lit "a-b"); CStr (lit "c"); CStr (lit "d")] /\
  join_range (lit "-") [CStr (lit "a"); CStr []; CStr (lit "c")] (0, Some 2)
    = Ok [CStr (lit "a"); CStr (lit "c")] /\
  join_range (lit "-") [CStr (lit "a"); CNone; CStr (lit "c")] (0, None)
    = Ok [CStr (lit "a-c")].
Proof. repeat split; reflexivity. Qed.

(** [--headings 1 --outfmt table-ascii] on the rows [name,age], [Alice,30],
    [Bob,25]. *)
Example table_end_to_end :
  main_table (table_flags Ascii) (plain_options 1)
    [[CStr (lit "name"); CStr (lit "age")];
     [CStr (lit "Alice"); CStr (lit "30")];
     [CStr (lit "Bob"); CStr (lit "25")]]
  = ([line "name  | age"; line "------+----"; line "Alice |  30"; line "Bob   |  25"],
     None).
Proof. reflexivity. Qed.

(** C1, the claim as stated fails: with a join range and a keep spec
    configured, the heading row [a,b,c] reaches the writer as [a-b]. *)
Lemma heading_row_changed :
  1 <= heading_lines join_keep_options /\
  process_row join_keep_options 1 [CStr (lit "a"); CStr (lit "b"); CStr (lit "c")]
    = Ok (Some [CStr (lit "a-b")]) /\
  process_row join_keep_options 1 [CStr (lit "a"); CStr (lit "b"); CStr (lit "c")]
    <> Ok (Some [CStr (lit "a"); CStr (lit "b"); CStr (lit "c")]).
Proof.
  split; [discriminate|]. split; [reflexivity|discriminate].
Qed.

(** A heading row with nothing configured: the text [12] stays text. *)
Lemma heading_row_stages_witness :
  1 <= heading_lines (plain_options 1) /\
  process_row (plain_options 1) 1 [CStr (lit "12")] = Ok (Some [CStr (lit "12")]).
Proof.
  split; [discriminate|].
  apply (heading_row_stages (plain_options 1) 1 [CStr (lit "12")]);
    [discriminate|reflexivity|reflexivity].
Defined.

(** C2.  The data row [a,5] under [--join "-1-2"]: coercion turns ["5"] into
    the number 5 and the join raises [TypeError], where the claim has the
    cell [a-5].  In the row [0,a] the number 0 is left out of the join, where
    the claim has [0-a]. *)
Theorem join_numeric_cells :
  cook_join (lit "-1-2") = Ok (lit "-", [(0, Some 2)]) /\
  mapM numeric [CStr (lit "a"); CStr (lit "5")] = Ok [CStr (lit "a"); CInt 5] /\
  process_row (join_options 0) 1 [CStr (lit "a"); CStr (lit "5")] = Raise TypeError /\
  join_range (lit "-") [CStr (lit "a"); CInt 5] (0, Some 2) = Raise TypeError /\
  process_row (join_options 0) 1 [CStr (lit "0"); CStr (lit "a")]
    = Ok (Some [CStr (lit "a")]).
Proof. repeat split; reflexivity. Qed.







End Runs.

(** The ranges of ["1-3,5"]. *)
Lemma parse_range_ranges_witness :
  parse_range (lit "1-3,5") = Ok [(0, Some 3); (4, Some 5)] /\
  Forall2 (fun t r =>
             r = rule_range t /\
             -1 <= fst r /\ (forall e, snd r = Some e -> 0 <= e) /\
             (count_minus t = 0%nat ->
              exists N, py_int t = Some N /\ 0 <= N /\ r = (N - 1, Some N) /\
                        fst r <= N))
          (tokens (lit "1-3,5")) [(0, Some 3); (4, Some 5)].
Proof.
  split; [reflexivity|].
  apply (parse_range_ranges (lit "1-3,5")). reflexivity.
Defined.

(** * Further properties of the code *)

(** ** [numeric] *)

Section NumericMore.

Context {F : PyFloat}.

(** X1.  Whatever [numeric] returns for a string [s] is an [int], or a
    [float] that is not integral, or [s] itself: never another string, never
    [None], and never a float without a fractional part. *)
Theorem numeric_result_kinds (s : pystr) (c : Cell) :
  numeric (CStr s) = Ok c ->
  match c with
  | CInt _ => True
  | CFloat f => float_is_integer f = false
  | CStr t => t = s
  | CNone => False
  end.
Proof.
  rewrite (numeric_of_cooked (CStr s) _ eq_refl).
  destruct (py_int _); [now intros [= <-]|].
  destruct (py_float _) as [f|]; [|now intros [= <-]].
  destruct (float_is_integer f) eqn:Hi; [|now intros [= <-]].
  destruct (float_to_int f) as [n|[]]; try discriminate; now intros [= <-].
Qed.

Lemma not_currency_not_dollar (s : pystr) :
  match s with c :: _ => is_currency c = false | [] => True end ->
  startswith ch_dollar s = false.
Proof.
  destruct s as [|c s]; [reflexivity|]. cbn [startswith].
  intros Hc. destruct (N.eqb_spec c ch_dollar) as [->|]; [discriminate|reflexivity].
Qed.

Lemma cook_dollar (s : pystr) :
  match s with c :: _ => is_currency c = false | [] => True end ->
  re_numeric_match s = true ->
  cook (ch_dollar :: s) = cook s.
Proof.
  intros Hc Hm.
  assert (Hm' : re_numeric_match (ch_dollar :: s) = true).
  { rewrite <- Hm. unfold re_numeric_match.
    replace (is_currency ch_dollar) with true by reflexivity.
    destruct s as [|c s]; [reflexivity|]. now rewrite Hc. }
  unfold cook. rewrite Hm, Hm', (not_currency_not_dollar s Hc).
  reflexivity.
Qed.

(** X2.  A dollar sign in front of a string that matches [re_numeric] and
    has no currency symbol of its own does not change the number read:
    [numeric] returns a number for the one exactly when it returns the same
    number for the other. *)
Theorem numeric_dollar_prefix (s : pystr) (c : Cell) :
  re_numeric_match s = true ->
  match s with c0 :: _ => is_currency c0 = false | [] => True end ->
  is_number c ->
  (numeric (CStr (ch_dollar :: s)) = Ok c <-> numeric (CStr s) = Ok c).
Proof.
  intros Hm Hc Hnum.
  rewrite (numeric_of_cooked (CStr (ch_dollar :: s)) (cook s))
    by (symmetry; now apply cook_dollar).
  rewrite (numeric_of_cooked (CStr s) (cook s) eq_refl).
  destruct (py_int (cook s)); [reflexivity|].
  destruct (py_float (cook s)) as [f|].
  - destruct (float_is_integer f); [|reflexivity].
    destruct (float_to_int f) as [n|[]]; try reflexivity.
    split; intros [= <-]; contradiction.
  - split; intros [= <-]; contradiction.
Qed.

End NumericMore.

(** ** Rows without options, rows without [--lambda] *)

Section PipelineMore.

Context {F : PyFloat}.

Lemma mapM_numeric_total {L : PyFloatLaws F} (row : Row) :
  exists row', mapM numeric row = Ok row' /\
               Forall2 (fun x y => numeric x = Ok y) row row'.
Proof.
  induction row as [|x row (row' & IH & Hall)].
  - exists []. split; [reflexivity|constructor].
  - destruct (numeric_total x) as [y Hy].
    exists (y :: row'). simpl. rewrite Hy, IH. split; [reflexivity|].
    now constructor.
Qed.

(** X3.  A data row under no [--lambda], no [--join] and no [--keep] is
    never dropped and never raises: it reaches the writer with the same
    number of cells, each one the [numeric] of the cell it comes from. *)
Theorem data_row_coerced {L : PyFloatLaws F} (opt : Options) (i : Z) (row : Row) :
  heading_lines opt < i ->
  func opt = None -> join_fields opt = [] -> keep opt = None ->
  exists row',
    process_row opt i row = Ok (Some row') /\
    Forall2 (fun x y => numeric x = Ok y) row row' /\
    length row' = length row.
Proof.
  intros Hi Hf Hj Hk.
  destruct (mapM_numeric_total row) as (row' & Hm & Hall).
  exists row'. unfold process_row.
  replace (i >? heading_lines opt) with true by (symmetry; apply Z.gtb_lt; lia).
  rewrite Hm, Hf, Hj, Hk. repeat split; [assumption|].
  symmetry. eapply Forall2_length; eassumption.
Qed.

Lemma process_row_no_lambda (opt : Options) (i : Z) (row : Row) :
  func opt = None -> process_row opt i row <> Ok None.
Proof.
  intros Hf. unfold process_row. rewrite Hf.
  destruct (i >? heading_lines opt).
  - destruct (mapM numeric row) as [r|e]; [|discriminate]. cbn [bind].
    destruct (join_stage _ _ r); discriminate.
  - cbn [bind]. destruct (join_stage _ _ row); discriminate.
Qed.

Lemma survivors_all (opt : Options) (rows : list (Z * Row)) :
  func opt = None ->
  Forall (fun '(j, row) => exists r, process_row opt j row = Ok r) rows ->
  length (survivors opt rows) = length rows.
Proof.
  intros Hf H. induction H as [|[j row] rows [r Hr] _ IH]; [reflexivity|].
  cbn [survivors flat_map]. fold (survivors opt rows).
  rewrite Hr. destruct r as [r|].
  - rewrite length_app, IH. reflexivity.
  - exfalso. now apply (process_row_no_lambda opt j row Hf).
Qed.

(** X4.  Without [--lambda] no row is dropped: in a run that ends normally
    the writer receives as many rows as the reader gave, and the row of the
    command line when there is one. *)
Theorem no_lambda_keeps_rows (opt : Options) (reader : list Row) :
  func opt = None ->
  snd (main_rows (W := LogWriter) opt reader []) = None ->
  length (fst (main_rows (W := LogWriter) opt reader []))
  = (length (literal_rows opt) + length reader)%nat.
Proof.
  intros Hf Hend. unfold main_rows, literal_rows in *.
  destruct (main_loop_order (W := LogWriter) opt reader 0
              (if nonempty (args opt)
               then writerow (Writer := LogWriter) [] (map CStr (args opt)) else []))
    as (k & Hk & Hw & Hs & Hall).
  rewrite Hend in Hs. subst k.
  rewrite Hw, fold_left_log, length_app, (survivors_all opt _ Hf Hall).
  rewrite length_firstn, length_number_from, Nat.min_id.
  now destruct (nonempty (args opt)).
Qed.

End PipelineMore.

(** ** Field ranges at work: [--keep] and [--join] *)











Lemma slice_bounds_nat (len a b : nat) :
  slice_bounds len (Z.of_nat a) (Some (Z.of_nat b)) = (Nat.min a len, Nat.min b len).
Proof.
  unfold slice_bounds, adjust_index.
  destruct (Z.ltb_spec (Z.of_nat a) 0); [lia|].
  destruct (Z.ltb_spec (Z.of_nat b) 0); [lia|].
  f_equal; lia.
Qed.


Lemma clipped_segment {A} (row : list A) (a k : nat) :
  firstn (k - Nat.min a (length row)) (skipn (Nat.min a (length row)) row)
  = firstn (k - a) (skipn a row).
Proof.
  destruct (Nat.le_gt_cases (length row) a) as [H|H].
  - rewrite Nat.min_r by assumption.
    now rewrite skipn_all, (skipn_all2 row H), !firstn_nil.
  - now rewrite Nat.min_l by lia.
Qed.

(** [row[a:b]] for bounds that are not negative. *)
Lemma slice_nat {A} (row : list A) (a b : nat) :
  slice row (Z.of_nat a) (Some (Z.of_nat b)) = firstn (b - a) (skipn a row).
Proof.
  unfold slice. rewrite slice_bounds_nat.
  rewrite clipped_segment.
  destruct (Nat.le_gt_cases b (length row)) as [H|H].
  - now rewrite (Nat.min_l b) by assumption.
  - rewrite (Nat.min_r b) by lia.
    rewrite !firstn_all2; [reflexivity| |]; rewrite length_skipn; lia.
Qed.


Lemma slice_assign_nat {A} (row : list A) (a b : nat) (new : list A) :
  slice_assign row (Z.of_nat a) (Some (Z.of_nat b)) new
  = firstn a row ++ new ++ skipn (Nat.max a b) row.
Proof.
  unfold slice_assign. rewrite slice_bounds_nat.
  assert (Hf : firstn (Nat.min a (length row)) row = firstn a row).
  { destruct (Nat.le_gt_cases a (length row)).
    - now rewrite Nat.min_l.
    - rewrite Nat.min_r, firstn_all, firstn_all2 by lia. reflexivity. }
  assert (Hs : skipn (Nat.max (Nat.min a (length row)) (Nat.min b (length row))) row
               = skipn (Nat.max a b) row).
  { destruct (Nat.le_gt_cases (Nat.max a b) (length row)).
    - f_equal. lia.
    - rewrite !skipn_all2 by lia. reflexivity. }
  now rewrite Hf, Hs.
Qed.


Section KeepJoin.

Context {F : PyFloat}.



(** X7.  A join range that lies inside the row, over cells that are strings
    or [None], does not raise: the cells before it and the cells after it
    stay as they are, the cells of the range become one cell, their strings
    that are not empty joined by the separator, and the row is shorter by the
    length of the range less one. *)
Theorem join_range_within (sep : pystr) (row : Row) (a b : nat) :
  (a <= b <= length row)%nat ->
  Forall text_cell (firstn (b - a) (skipn a row)) ->
  join_range sep row (Z.of_nat a, Some (Z.of_nat b))
    = Ok (firstn a row
          ++ CStr (join sep (present_texts (firstn (b - a) (skipn a row))))
          :: skipn b row) /\
  (length (firstn a row
           ++ CStr (join sep (present_texts (firstn (b - a) (skipn a row))))
           :: skipn b row)
   + (b - a) = length row + 1)%nat.
Proof.
  intros Hab Ht. split.
  - rewrite join_range_texts by (now rewrite slice_nat).
    rewrite slice_nat, slice_assign_nat, Nat.max_r by lia. reflexivity.
  - rewrite length_app. cbn [length].
    rewrite length_firstn, length_skipn. lia.
Qed.

Lemma segment_of_prefix {A} (row rest : list A) (n a b : nat) :
  (b <= n <= length row)%nat ->
  firstn (b - a) (skipn a (firstn n row ++ rest)) = firstn (b - a) (skipn a row).
Proof.
  intros H.
  destruct (Nat.le_gt_cases b a) as [Hba|Hba].
  { replace (b - a)%nat with 0%nat by lia. reflexivity. }
  rewrite skipn_app, length_firstn, Nat.min_l by lia.
  replace (a - n)%nat with 0%nat by lia. rewrite skipn_0.
  rewrite firstn_app, length_skipn, length_firstn, Nat.min_l by lia.
  replace (b - a - (n - a))%nat with 0%nat by lia.
  rewrite firstn_0, app_nil_r, skipn_firstn_comm, firstn_firstn.
  now rewrite Nat.min_l by lia.
Qed.

(** X8.  Why the joins go from right to left: a join at a range that starts
    at [n], inside the row, leaves every slice that ends at or before [n] as
    it was, so the ranges further left still name the same cells. *)
Theorem join_range_left_untouched (sep : pystr) (row row' : Row) (n : nat)
    (m : option Z) (a b : nat) :
  join_range sep row (Z.of_nat n, m) = Ok row' ->
  (b <= n <= length row)%nat ->
  slice row' (Z.of_nat a) (Some (Z.of_nat b))
  = slice row (Z.of_nat a) (Some (Z.of_nat b)).
Proof.
  unfold join_range. intros Hj Hb.
  destruct (str_join sep _) as [t|e]; [|discriminate].
  cbn [bind] in Hj. injection Hj as <-.
  rewrite !slice_nat. unfold slice_assign, slice_bounds.
  replace (Z.to_nat (adjust_index (Z.of_nat (length row)) (Z.of_nat n))) with n
    by (unfold adjust_index; destruct (Z.ltb_spec (Z.of_nat n) 0); lia).
  now apply segment_of_prefix.
Qed.

End KeepJoin.

Lemma mapM_length {A B} (f : A -> result B) (l : list A) :
  forall bs, mapM f l = Ok bs -> length bs = length l.
Proof.
  induction l as [|a l IH]; intros bs; simpl; [now intros [= <-]|].
  destruct (f a); [|discriminate]. cbn [bind].
  destruct (mapM f l) as [bs'|]; [|discriminate]. cbn [bind].
  intros [= <-]. simpl. now rewrite (IH bs' eq_refl).
Qed.

Lemma parse_range_length (s : pystr) (rs : list Range) :
  parse_range s = Ok rs -> length rs = S (count_occ N.eq_dec s ch_comma).
Proof.
  intros H. rewrite (mapM_length _ _ _ H), length_map. apply split_length.
Qed.

Lemma parse_range_rules (s : pystr) (rs : list Range) :
  parse_range s = Ok rs -> rs = map rule_range (tokens s).
Proof.
  intros H. destruct (rejected_tokens_dec s) as [Hr|Hr].
  - rewrite (parse_range_rejected s Hr) in H. discriminate.
  - rewrite (parse_range_accepted s Hr) in H. now injection H.
Qed.

(** X9.  A successful [parse_range] returns one range for each
    comma-separated token, in the order written: one more than the number of
    commas, so never an empty list. *)
Theorem parse_range_count (s : pystr) (rs : list Range) :
  parse_range s = Ok rs ->
  length rs = S (count_occ N.eq_dec s ch_comma) /\
  rs = map rule_range (tokens s).
Proof.
  intros H. split; [now apply parse_range_length|now apply parse_range_rules].
Qed.

(** X10.  A JOINSPEC is cooked into its first character, the separator, and
    the ranges of the rest in reverse order, so that the range written last
    is joined first.  A JOINSPEC of the separator alone raises [ValueError],
    and a cooked one that is not empty has at least one range. *)
Theorem cook_join_shape (spec sep : pystr) (rs : list Range) :
  cook_join spec = Ok (sep, rs) ->
  (spec = [] /\ sep = [] /\ rs = []) \/
  (exists c rest,
     spec = c :: rest /\ sep = [c] /\ rest <> [] /\ rs <> [] /\
     rs = List.rev (map rule_range (tokens rest)) /\
     cook_join [c] = Raise ValueError).
Proof.
  destruct spec as [|c rest]; cbn [cook_join].
  - intros [= <- <-]. now left.
  - destruct (parse_range rest) as [f|e] eqn:Hp; [|discriminate].
    cbn [bind]. intros [= <- <-]. right. exists c, rest.
    pose proof (parse_range_length rest f Hp) as Hlen.
    pose proof (parse_range_rules rest f Hp) as Hf.
    repeat split.
    + intros ->. discriminate.
    + intros Hrev. apply (f_equal (@length Range)) in Hrev.
      rewrite length_rev, Hlen in Hrev. discriminate.
    + now rewrite Hf.
Qed.

(** ** The table writer: buffer, line counts, widths *)

Section TableMore.

Context {F : PyFloat}.

(** X11.  [tabfmt] pads and never cuts: the result is as long as the wider of
    the column and the text it writes for the cell. *)
Theorem tabfmt_length (v : Cell) (w : nat) :
  length (tabfmt v w) = Nat.max w (length (cell_text v)).
Proof.
  unfold tabfmt, cell_text, rjust, ljust.
  destruct v; cbn [py_str]; rewrite length_app, repeat_length; lia.
Qed.

Lemma writerow_fields (w : TableWriter) (row : Row) :
  none_as (TableWriter_writerow w row) = none_as w /\
  style (TableWriter_writerow w row) = style w /\
  col_sep (TableWriter_writerow w row) = col_sep w /\
  head_sep (TableWriter_writerow w row) = head_sep w /\
  markdown (TableWriter_writerow w row) = markdown w.
Proof. repeat split. Qed.

Lemma fill_none_present (none_as : pystr) (row : Row) :
  Forall (fun c => c <> CNone) (map (fill_none none_as) row).
Proof.
  apply Forall_forall. intros c Hc. apply in_map_iff in Hc as (v & <- & _).
  now destruct v.
Qed.

(** X12.  The buffer of the table writer holds the rows in the order they
    were written, with [none_as] in place of every [None]: no cell of the
    buffer is [None], and the settings of the writer do not change. *)
Theorem table_buffer (rows : list Row) :
  forall w : TableWriter,
  let w' := fold_left TableWriter_writerow rows w in
  data w' = data w ++ map (map (fill_none (none_as w))) rows /\
  Forall (Forall (fun c => c <> CNone)) (map (map (fill_none (none_as w))) rows) /\
  none_as w' = none_as w /\ style w' = style w /\ col_sep w' = col_sep w /\
  head_sep w' = head_sep w /\ markdown w' = markdown w.
Proof.
  induction rows as [|row rows IH]; intros w; cbn zeta.
  - cbn [fold_left map]. rewrite app_nil_r. repeat split. constructor.
  - cbn [fold_left map].
    destruct (IH (TableWriter_writerow w row)) as (Hd & Hn & H1 & H2 & H3 & H4 & H5).
    destruct (writerow_fields w row) as (E1 & E2 & E3 & E4 & E5).
    rewrite E1 in Hd, Hn.
    repeat split; try congruence.
    + rewrite Hd. cbn [TableWriter_writerow set_data data].
      now rewrite <- app_assoc.
    + constructor; [apply fill_none_present|exact Hn].
Qed.

(** X13.  [writerows()] on an empty buffer writes nothing.  After a run that
    ends normally the buffer is empty, so that a second call writes nothing;
    after a run that raises the writer is as it was. *)
Theorem writerows_flush (hl : Z) (w : TableWriter) :
  (data w = [] -> TableWriter_writerows hl w = (([], None), w)) /\
  (snd (fst (TableWriter_writerows hl w)) = None ->
   data (snd (TableWriter_writerows hl w)) = [] /\
   forall hl', TableWriter_writerows hl' (snd (TableWriter_writerows hl w))
               = (([], None), snd (TableWriter_writerows hl w))) /\
  (snd (fst (TableWriter_writerows hl w)) <> None ->
   snd (TableWriter_writerows hl w) = w).
Proof.
  assert (Hempty : forall h v, data v = [] -> TableWriter_writerows h v = (([], None), v)).
  { intros h v Hv. unfold TableWriter_writerows. now rewrite Hv. }
  split; [apply Hempty|].
  assert (Hcases : (snd (fst (TableWriter_writerows hl w)) = None /\
                    data (snd (TableWriter_writerows hl w)) = []) \/
                   (snd (fst (TableWriter_writerows hl w)) <> None /\
                    snd (TableWriter_writerows hl w) = w)).
  { unfold TableWriter_writerows.
    destruct (data w) as [|row rows] eqn:Hd;
      [left; cbn [fst snd]; split; [reflexivity|exact Hd]|].
    cbn [fst snd].
    destruct (snd _) as [e|]; [right; split; [discriminate|reflexivity]|].
    left. split; reflexivity. }
  destruct Hcases as [[Hn Hd]|[Hn Hw]]; split; try tauto.
  intros _. split; [exact Hd|]. intros hl'. now apply Hempty.
Qed.

Lemma mapM_index_seq {A B} (g : A -> B) (l : list A) :
  forall (pre : list A) (k : nat),
  (k <= length l)%nat ->
  mapM (fun c => v <- index (pre ++ l) c ;; Ok (g v)) (seq (length pre) k)
  = Ok (map g (firstn k l)).
Proof.
  induction l as [|a l IH]; intros pre k Hk.
  - destruct k; [reflexivity|simpl in Hk; lia].
  - destruct k as [|k]; [reflexivity|].
    cbn [seq mapM firstn map]. rewrite index_app_here. cbn [bind].
    destruct (shift_prefix pre l a) as [E L]. rewrite E, L.
    rewrite IH by (simpl in Hk; lia). reflexivity.
Qed.





Lemma divider_line_eq (w : TableWriter) (wid : list nat) (row : Row) :
  (length row <= length wid)%nat ->
  divider_line w wid row
  = Ok (join (replace ch_pipe [ch_plus]
               (replace ch_box_v [ch_box_cross]
                  (replace ch_space (head_sep w) (col_sep w))))
             (map (repeat_str (head_sep w)) (firstn (length row) wid)) ++ [ch_nl]).
Proof.
  intros H. unfold divider_line.
  pose proof (mapM_index_seq (repeat_str (head_sep w)) wid [] (length row) H) as E.
  change ([] ++ wid) with wid in E. cbn [length] in E. rewrite E. reflexivity.
Qed.



Lemma length_repeat_str (s : pystr) (n : nat) :
  length (repeat_str s n) = (n * length s)%nat.
Proof.
  unfold repeat_str. induction n as [|n IH]; [reflexivity|].
  cbn [repeat concat]. rewrite length_app, IH. lia.
Qed.

Lemma length_replace_unit (old : pychar) (new s : pystr) :
  length new = 1%nat -> length (replace old new s) = length s.
Proof.
  intros Hn. unfold replace. induction s as [|c s IH]; [reflexivity|].
  cbn [flat_map]. rewrite length_app, IH.
  destruct (c =? old)%N; [rewrite Hn|]; reflexivity.
Qed.

Lemma bars_lengths (hs : pystr) (wid : list nat) :
  length hs = 1%nat -> map (@length pychar) (map (repeat_str hs) wid) = wid.
Proof.
  intros H. induction wid as [|x wid IH]; [reflexivity|].
  cbn [map]. rewrite IH, length_repeat_str, H. f_equal. lia.
Qed.

(** X16.  With a one-character [head_sep], as in the styles "box" and
    "ascii", the divider under a row that has a cell for every column is as
    long as a row line of cells that fit: the sum of the column widths and
    the column separators between them (and the newline). *)
Theorem divider_as_wide (w : TableWriter) (wid : list nat) (row : Row) :
  length row = length wid -> length (head_sep w) = 1%nat ->
  exists d,
    divider_line w wid row = Ok d /\
    length d = (list_sum wid + (length wid - 1) * length (col_sep w) + 1)%nat.
Proof.
  intros Hlen Hhs. eexists. split.
  - apply divider_line_eq. lia.
  - rewrite Hlen, firstn_all, length_app, length_join, (bars_lengths _ _ Hhs).
    rewrite length_map, !length_replace_unit by (reflexivity || assumption).
    reflexivity.
Qed.

End TableMore.

(** ** The shell writer *)

Section ShellMore.

Context {F : PyFloat}.
Variable shellify : Cell -> pystr.

Lemma shell_rows_set (rows : list Row) (w : ShellWriter) (v : pystr) (vs : list pystr) :
  shell_vars w = Some (v :: vs) ->
  length (fst (ShellWriter_writerows shellify w rows)) = (2 * length rows)%nat /\
  snd (ShellWriter_writerows shellify w rows) = w.
Proof.
  intros Hv. induction rows as [|row rows [IHl IHw]]; [split; reflexivity|].
  cbn [ShellWriter_writerows]. unfold ShellWriter_writerow at 1 2. rewrite Hv.
  destruct (ShellWriter_writerows shellify w rows) as [out w']. cbn [fst snd] in *.
  split; [cbn [List.app length]; lia|assumption].
Qed.

Lemma shell_rows_unset (rows : list Row) :
  forall w : ShellWriter,
  match shell_vars w with Some (_ :: _) => False | _ => True end ->
  length (fst (ShellWriter_writerows shellify w rows))
  = (2 * length (after_headings rows))%nat /\
  (forall h, first_headings rows = Some h ->
             shell_vars (snd (ShellWriter_writerows shellify w rows))
             = Some (map py_str h)).
Proof.
  induction rows as [|row rows IH]; intros w Hw.
  - split; [reflexivity|discriminate].
  - cbn [ShellWriter_writerows].
    assert (E : ShellWriter_writerow shellify w row = ([], setHeadings w row)).
    { unfold ShellWriter_writerow. destruct (shell_vars w) as [[|v vs]|]; easy. }
    rewrite E. destruct row as [|c row].
    + destruct (IH (setHeadings w []) I) as [IHl IHh].
      destruct (ShellWriter_writerows shellify (setHeadings w []) rows) as [out w'].
      cbn [fst snd List.app after_headings first_headings] in *. split; assumption.
    + destruct (shell_rows_set rows (setHeadings w (c :: row)) (py_str c)
                  (map py_str row) eq_refl) as [Hl Hs].
      destruct (ShellWriter_writerows shellify (setHeadings w (c :: row)) rows)
        as [out w'].
      cbn [fst snd List.app after_headings first_headings] in *. split; [assumption|].
      intros h [= <-]. now subst w'.
Qed.

(** X17.  The shell writer prints nothing for the rows up to and including
    the first row that is not empty, whose cells become the variable names,
    and it writes a line and a newline for each row after that.  An empty
    first row does not settle the names: the next row is taken instead. *)
Theorem shell_headings_first (none_as : option pystr) (rows : list Row) :
  length (fst (ShellWriter_writerows shellify (ShellWriter_init none_as) rows))
  = (2 * length (after_headings rows))%nat /\
  (forall h, first_headings rows = Some h ->
             shell_vars (snd (ShellWriter_writerows shellify
                                (ShellWriter_init none_as) rows))
             = Some (map py_str h)) /\
  (forall rest,
     fst (ShellWriter_writerows shellify (ShellWriter_init none_as) ([] :: rest))
     = fst (ShellWriter_writerows shellify (ShellWriter_init none_as) rest)).
Proof.
  destruct (shell_rows_unset rows (ShellWriter_init none_as) I) as [Hl Hh].
  repeat split; try assumption.
  intros rest. cbn [ShellWriter_writerows ShellWriter_writerow ShellWriter_init shell_vars].
  destruct (shell_rows_unset rest (setHeadings (ShellWriter_init none_as) []) I) as [H1 _].
  destruct (shell_rows_unset rest (ShellWriter_init none_as) I) as [H2 _].
  assert (E : forall w1 w2 : ShellWriter,
             match shell_vars w1 with Some (_ :: _) => False | _ => True end ->
             match shell_vars w2 with Some (_ :: _) => False | _ => True end ->
             shell_none_as w1 = shell_none_as w2 ->
             fst (ShellWriter_writerows shellify w1 rest)
             = fst (ShellWriter_writerows shellify w2 rest)).
  { clear. induction rest as [|row rest IH]; intros w1 w2 U1 U2 Hn; [reflexivity|].
    cbn [ShellWriter_writerows].
    assert (E1 : ShellWriter_writerow shellify w1 row = ([], setHeadings w1 row)).
    { unfold ShellWriter_writerow. destruct (shell_vars w1) as [[|v vs]|]; easy. }
    assert (E2 : ShellWriter_writerow shellify w2 row = ([], setHeadings w2 row)).
    { unfold ShellWriter_writerow. destruct (shell_vars w2) as [[|v vs]|]; easy. }
    rewrite E1, E2.
    assert (Hs : setHeadings w1 row = setHeadings w2 row).
    { unfold setHeadings. now rewrite Hn. }
    rewrite Hs. reflexivity. }
  specialize (E (setHeadings (ShellWriter_init none_as) []) (ShellWriter_init none_as)
                I I eq_refl).
  destruct (ShellWriter_writerows shellify (setHeadings _ []) rest) as [o1 w1].
  destruct (ShellWriter_writerows shellify (ShellWriter_init none_as) rest) as [o2 w2].
  cbn [fst List.app] in *. exact E.
Qed.

Lemma replace_removes (old : pychar) (new s : pystr) :
  ~ In old new -> ~ In old (replace old new s).
Proof.
  intros Hn. unfold replace. induction s as [|c s IH]; [auto|].
  cbn [flat_map]. intros H. apply in_app_or in H as [H|H]; [|auto].
  destruct (N.eqb_spec c old) as [->|Hne]; [auto|].
  destruct H as [->|[]]. contradiction.
Qed.

(** X18.  Once the names are set, a row is written as one line and a
    newline.  The line joins with [";"] one assignment for each pair of a
    name and a cell, as many as the shorter of the two lists has; each
    assignment is a name without spaces, ["="] and the [shellify] of the
    cell, [none_as] standing for [None]. *)
Theorem shell_row_assignments (w : ShellWriter) (v : pystr) (vs : list pystr)
    (row : Row) :
  shell_vars w = Some (v :: vs) ->
  let assigns := shell_assignments shellify (v :: vs)
                   (map (fill_none (shell_none_as w)) row) in
  ShellWriter_writerow shellify w row = ([join (lit ";") assigns; [ch_nl]], w) /\
  length assigns = Nat.min (length (v :: vs)) (length row) /\
  Forall (fun a => exists name cell,
            a = name ++ lit "=" ++ shellify cell /\
            ~ In ch_space name /\ cell <> CNone)
         assigns.
Proof.
  intros Hv assigns. subst assigns. repeat split.
  - unfold ShellWriter_writerow. now rewrite Hv.
  - unfold shell_assignments. now rewrite length_map, length_combine, length_map.
  - unfold shell_assignments. apply Forall_forall. intros a Ha.
    apply in_map_iff in Ha as ([name cell] & <- & Hin).
    exists (replace ch_space [ch_underscore] name), cell.
    split; [reflexivity|]. split.
    + apply replace_removes. intros [H|[]]. discriminate.
    + apply in_combine_r in Hin. apply in_map_iff in Hin as (c & <- & _).
      now destruct c.
Qed.

End ShellMore.

(** ** The values of [--outfmt] *)

Lemma pystr_eqb_true (a b : pystr) : pystr_eqb a b = true -> a = b.
Proof. unfold pystr_eqb. now destruct (list_eq_dec N.eq_dec a b). Qed.

Lemma startswith_str_true (prefix s : pystr) :
  startswith_str prefix s = true -> s = prefix ++ skipn (length prefix) s.
Proof.
  revert s. induction prefix as [|c prefix IH]; intros s H; [reflexivity|].
  destruct s as [|c' s]; [discriminate|].
  cbn [startswith_str] in H. apply andb_prop in H as [Hc Hs].
  apply N.eqb_eq in Hc. subst c'. cbn [length skipn List.app].
  now rewrite <- (IH s Hs).
Qed.

Lemma startswith_true (c : pychar) (s : pystr) :
  startswith c s = true -> s = c :: tl s.
Proof.
  destruct s as [|c' s]; [discriminate|]. cbn [startswith tl].
  intros H. apply N.eqb_eq in H. now subst.
Qed.

(** X19.  The values of [--outfmt] that [main] accepts are exactly csv,
    shell, markdown, table, table-ascii, table-box and table-nosep; plain
    table means the style "box", and every other value ends the program. *)
Theorem cook_outfmt_accepted (s : pystr) (r : pystr * option Style) :
  cook_outfmt s = Some r <-> In (s, r) outfmt_table.
Proof.
  split.
  - unfold cook_outfmt.
    destruct (startswith_str (lit "table") s) eqn:Hst.
    + apply startswith_str_true in Hst.
      destruct (pystr_eqb s (lit "table")) eqn:He.
      * apply pystr_eqb_true in He. subst s. intros [= <-]. simpl. tauto.
      * destruct (startswith ch_minus (skipn 5 s)) eqn:Hm; [|discriminate].
        apply startswith_true in Hm. cbn [negb].
        unfold style_of_name.
        destruct (pystr_eqb (tl (skipn 5 s)) (lit "ascii")) eqn:Ha;
          [|destruct (pystr_eqb (tl (skipn 5 s)) (lit "box")) eqn:Hb;
            [|destruct (pystr_eqb (tl (skipn 5 s)) (lit "nosep")) eqn:Hn;
              [|discriminate]]];
          match goal with
          | H : pystr_eqb _ _ = true |- _ => apply pystr_eqb_true in H; rewrite H in Hm
          end;
          change (length (lit "table")) with 5%nat in Hst; rewrite Hm in Hst;
          subst s; intros [= <-]; simpl; tauto.
    + unfold in_names. cbn [existsb].
      destruct (pystr_eqb s (lit "csv")) eqn:H1;
        [apply pystr_eqb_true in H1; subst s; intros [= <-]; simpl; tauto|].
      destruct (pystr_eqb s (lit "shell")) eqn:H2;
        [apply pystr_eqb_true in H2; subst s; intros [= <-]; simpl; tauto|].
      destruct (pystr_eqb s (lit "table")) eqn:H3;
        [apply pystr_eqb_true in H3; subst s; discriminate|].
      destruct (pystr_eqb s (lit "markdown")) eqn:H4;
        [apply pystr_eqb_true in H4; subst s; intros [= <-]; simpl; tauto|].
      discriminate.
  - unfold outfmt_table. intros H.
    repeat (destruct H as [[= <- <-]|H]; [reflexivity|]). contradiction.
Qed.

(** ** Grouping separators *)


Section Grouping.

Context {F : PyFloat}.


End Grouping.

(** ** Runs of the further properties, in the decimal model of [float] *)

Section MoreRuns.

#[local] Existing Instance DecFloat.instance.

(** [3.25] is read as a float that is not integral. *)
Lemma numeric_result_kinds_witness :
  numeric (CStr (lit "3.25")) = Ok (CFloat (DecFloat.DFin false 3 52)) /\
  float_is_integer (DecFloat.DFin false 3 52) = false.
Proof.
  split; [reflexivity|].
  exact (numeric_result_kinds (lit "3.25") (CFloat (DecFloat.DFin false 3 52)) eq_refl).
Defined.

(** [$1,234] is read as [1,234] is. *)
Lemma numeric_dollar_prefix_witness :
  numeric (CStr (lit "1,234")) = Ok (CInt 1234) /\
  numeric (CStr (lit "$1,234")) = Ok (CInt 1234).
Proof.
  split; [reflexivity|].
  apply (numeric_dollar_prefix (lit "1,234") (CInt 1234) eq_refl eq_refl I).
  reflexivity.
Defined.

(** The data row [7,x] with no option. *)
Lemma data_row_coerced_witness :
  exists row',
    process_row (plain_options 0) 1 [CStr (lit "7"); CStr (lit "x")] = Ok (Some row') /\
    Forall2 (fun x y => numeric x = Ok y) [CStr (lit "7"); CStr (lit "x")] row' /\
    length row' = 2%nat.
Proof.
  exact (data_row_coerced (L := DecFloatFacts.laws) (plain_options 0) 1
           [CStr (lit "7"); CStr (lit "x")] eq_refl eq_refl eq_refl eq_refl).
Defined.

(** Two rows in, two rows out. *)
Lemma no_lambda_keeps_rows_witness :
  length (fst (main_rows (W := LogWriter) (plain_options 1)
                 [[CStr (lit "h")]; [CStr (lit "5")]] []))
  = 2%nat.
Proof.
  exact (no_lambda_keeps_rows (plain_options 1) [[CStr (lit "h")]; [CStr (lit "5")]]
           eq_refl eq_refl).
Defined.



(** The range [(0, 2)] of the row [a,b,c]. *)
Lemma join_range_within_witness :
  join_range (lit "-") [CStr (lit "a"); CStr (lit "b"); CStr (lit "c")] (0, Some 2)
  = Ok [CStr (lit "a-b"); CStr (lit "c")].
Proof.
  apply (join_range_within (lit "-")
           [CStr (lit "a"); CStr (lit "b"); CStr (lit "c")] 0 2).
  - simpl. lia.
  - repeat constructor.
Defined.

(** Joining the cells 3 and 4 leaves the cells 1 and 2 where they were. *)
Lemma join_range_left_untouched_witness :
  slice [CStr (lit "a"); CStr (lit "b"); CStr (lit "c-d")] 0 (Some 2)
  = slice [CStr (lit "a"); CStr (lit "b"); CStr (lit "c"); CStr (lit "d")] 0 (Some 2).
Proof.
  apply (join_range_left_untouched (lit "-")
           [CStr (lit "a"); CStr (lit "b"); CStr (lit "c"); CStr (lit "d")]
           [CStr (lit "a"); CStr (lit "b"); CStr (lit "c-d")] 2 (Some 4) 0 2).
  - reflexivity.
  - simpl. lia.
Defined.

(** ["1-3,5"] has one comma and two ranges. *)
Lemma parse_range_count_witness :
  length [(0, Some 3); (4, Some 5)] = S (count_occ N.eq_dec (lit "1-3,5") ch_comma) /\
  [(0, Some 3); (4, Some 5)] = map rule_range (tokens (lit "1-3,5")).
Proof.
  exact (parse_range_count (lit "1-3,5") [(0, Some 3); (4, Some 5)] eq_refl).
Defined.

(** The JOINSPEC [" 2,4-5"]. *)
Lemma cook_join_shape_witness :
  (lit " 2,4-5" = [] /\ lit " " = [] /\ [(3, Some 5); (1, Some 2)] = []) \/
  (exists c rest,
     lit " 2,4-5" = c :: rest /\ lit " " = [c] /\ rest <> [] /\
     [(3, Some 5); (1, Some 2)] <> [] /\
     [(3, Some 5); (1, Some 2)] = List.rev (map rule_range (tokens rest)) /\
     cook_join [c] = Raise ValueError).
Proof.
  exact (cook_join_shape (lit " 2,4-5") (lit " ") [(3, Some 5); (1, Some 2)] eq_refl).
Defined.



(** The divider of two columns, 3 and 2 wide, in style "ascii". *)
Lemma divider_as_wide_witness :
  exists d,
    divider_line (TableWriter_init (table_flags Ascii)) [3; 2]%nat
      [CStr (lit "abc"); CInt 12] = Ok d /\
    length d = 9%nat.
Proof.
  exact (divider_as_wide (TableWriter_init (table_flags Ascii)) [3; 2]%nat
           [CStr (lit "abc"); CInt 12] eq_refl eq_refl).
Defined.

(** Two rows of two cells. *)
Lemma table_lines_same_width_witness :
  exists wid,
    column_widths [[CStr (lit "name"); CStr (lit "age")]; [CStr (lit "Bob"); CInt 25]]
    = Ok wid /\ length wid = 2%nat /\
    Forall (fun row =>
              exists l, table_line (TableWriter_init (table_flags Ascii)) wid row = Ok l /\
                        length l = (list_sum wid + (2 - 1) * 3 + 1)%nat)
           [[CStr (lit "name"); CStr (lit "age")]; [CStr (lit "Bob"); CInt 25]].
Proof.
  apply (table_lines_same_width (TableWriter_init (table_flags Ascii))
           [[CStr (lit "name"); CStr (lit "age")]; [CStr (lit "Bob"); CInt 25]] 2).
  - discriminate.
  - repeat constructor.
Defined.

(** A row under the names ["first name"] and ["age"], with [str] standing for
    [shellify]. *)
Lemma shell_row_assignments_witness :
  ShellWriter_writerow py_str
    {| shell_vars := Some [lit "first name"; lit "age"]; shell_none_as := [] |}
    [CStr (lit "Al"); CInt 30; CStr (lit "x")]
  = ([lit "first_name=Al;age=30"; [ch_nl]],
     {| shell_vars := Some [lit "first name"; lit "age"]; shell_none_as := [] |}).
Proof.
  apply (shell_row_assignments py_str
           {| shell_vars := Some [lit "first name"; lit "age"]; shell_none_as := [] |}
           (lit "first name") [lit "age"]
           [CStr (lit "Al"); CInt 30; CStr (lit "x")] eq_refl).
Defined.


End MoreRuns.
